(** * CapForEat: the persistence and resilience layer

    A shallow embedding of the client-side core of the CapForEat
    nutrition scanner: the inference client ([analyzeImage]), the retry
    policy ([analyzeImageWithRetry]), the image codec helper
    ([compressImage]) and the history store ([saveMealRecord],
    [getMealHistory], [loadData], [saveData], [handleSaveRecord]).

    The repository ships three programs.  Each one gets a module:
    - [Basic]    : the first program of [index.tsx] (no retry, no history);
    - [Retrying] : the second program of [index.tsx] (retry, compression,
                   history capped at 20 records / 4 MiB);
    - [Tabbed]   : [app.tsx] (three pages, uncapped history).
    The handlers of the screens and the pages come after them: [Screen]
    ([handleAnalyze] of the second program), [Daily] ([getTodayStats]
    and the grouping of [HistoryPage] in [app.tsx]) and [Session]
    (captures followed by saves in [app.tsx]).

    Conventions of the embedding.
    - A JavaScript string is the list of its UTF-16 code units
      ([jsstring]); [length] is therefore the [.length] of the source.
    - A call that may throw returns a [completion]; [try]/[catch] is a
      [match] on it.
    - What the browser, the clock and the inference service decide is an
      explicit argument (records [Service], [Browser], [LocalStorage]).
    - A number the programs compute with is a binary64 double
      ([Double]); a number that is only stored and copied is kept as the
      integer or the literal of its JSON text.
    - Console output has no effect on control flow and is left out. *)

From Stdlib Require Import String Ascii ZArith NArith QArith
  Bool Lia DecimalZ DecimalPos DecimalFacts List.
From Stdlib Require Import Permutation.
From Stdlib Require SpecFloat.
Import ListNotations.
Close Scope Q_scope.

Set Warnings "-register-all".

(* ================================================================== *)
(** * Part I: the programs                                             *)
(* ================================================================== *)

(** ** JavaScript strings *)

Definition jsstring := list N.

(** [utf16 s] reads the UTF-8 bytes of a literal of this file as the
    code units of the JavaScript literal with the same text. *)
Fixpoint utf16_bytes (bs : list N) : jsstring :=
  match bs with
  | [] => []
  | b0 :: r0 =>
    if (b0 <? 192)%N then b0 :: utf16_bytes r0 else
    match r0 with
    | [] => [b0]
    | b1 :: r1 =>
      if (b0 <? 224)%N then ((b0 - 192) * 64 + (b1 - 128))%N :: utf16_bytes r1 else
      match r1 with
      | [] => [b0; b1]
      | b2 :: r2 =>
        if (b0 <? 240)%N
        then ((b0 - 224) * 4096 + (b1 - 128) * 64 + (b2 - 128))%N :: utf16_bytes r2
        else
        match r2 with
        | [] => [b0; b1; b2]
        | b3 :: r3 =>
          let cp := ((b0 - 240) * 262144 + (b1 - 128) * 4096
                     + (b2 - 128) * 64 + (b3 - 128) - 65536)%N in
          (55296 + cp / 1024)%N :: (56320 + cp mod 1024)%N :: utf16_bytes r3
        end
      end
    end
  end.

Definition utf16 (s : string) : jsstring :=
  utf16_bytes (map N_of_ascii (list_ascii_of_string s)).

Definition jsstring_eqb (a b : jsstring) : bool :=
  if list_eq_dec N.eq_dec a b then true else false.

(** [s.startsWith(p)] and [s.includes(p)]. *)
Fixpoint startsWith (s p : jsstring) : bool :=
  match p, s with
  | [], _ => true
  | _ :: _, [] => false
  | a :: p', b :: s' => (a =? b)%N && startsWith s' p'
  end.

Fixpoint includes (s p : jsstring) : bool :=
  startsWith s p || match s with [] => false | _ :: s' => includes s' p end.

(** Truthiness of a [string | undefined | null]: [!x] is true for the
    absent value and for the empty string. *)
Definition falsy (x : option jsstring) : bool :=
  match x with
  | None => true
  | Some [] => true
  | Some (_ :: _) => false
  end.

(** [x || d] on strings. *)
Definition or_else (x : option jsstring) (d : jsstring) : jsstring :=
  match x with
  | Some (c :: r) => c :: r
  | _ => d
  end.

(** ** Thrown values and fallible calls *)

(** What the [catch] blocks of the programs look at: [error.name],
    [error.message] (absent when it is not a string) and
    [error.status] (absent when it is not a number). *)
Record JSError := mkJSError {
  name : jsstring;
  message : option jsstring;
  status : option Z
}.

(** [new Error(msg)]: no [status] property. *)
Definition Error (msg : jsstring) : JSError :=
  mkJSError (utf16 "Error") (Some msg) None.

Definition SyntaxError (msg : jsstring) : JSError :=
  mkJSError (utf16 "SyntaxError") (Some msg) None.

Definition TypeError (msg : jsstring) : JSError :=
  mkJSError (utf16 "TypeError") (Some msg) None.

(** The [DOMException] a full storage medium throws from [setItem]. *)
Definition QuotaExceededError : JSError :=
  mkJSError (utf16 "QuotaExceededError")
            (Some (utf16 "The quota has been exceeded.")) None.

(** [error.status === n]. *)
Definition status_is (e : JSError) (n : Z) : bool :=
  match status e with
  | Some s => (s =? n)%Z
  | None => false
  end.

Inductive completion (A : Type) : Type :=
| Return (a : A)
| Throw (e : JSError).

Arguments Return {A} a.
Arguments Throw {A} e.

Definition bind {A B} (m : completion A) (k : A -> completion B) : completion B :=
  match m with
  | Return a => k a
  | Throw e => Throw e
  end.

Notation "x <- m ;; k" := (bind m (fun x => k))
  (at level 61, m at next level, right associativity).

(** The wording of the errors the JavaScript engine itself raises is
    engine-specific; it is an argument of the model. *)
Record Engine := mkEngine {
  syntaxErrorMessage : jsstring -> jsstring;
  notIterableMessage : jsstring;
  undefinedPropertyMessage : jsstring
}.

(** ** JSON values *)

(** A number is an integer, or a literal with a fraction or an exponent
    that is kept as its text (the source never computes with one). *)
Inductive number :=
| Int (z : Z)
| Dec (literal : jsstring).

(** An object is the list of its members in the order of the text; a
    repeated key is kept where JavaScript keeps the last value. *)
Inductive json :=
| JNull
| JBool (b : bool)
| JNum (n : number)
| JStr (s : jsstring)
| JArr (elements : list json)
| JObj (members : list (jsstring * json)).

(** ** [JSON.stringify] *)

Definition hex_digit (n : N) : N :=
  if (n <? 10)%N then (48 + n)%N else (87 + n)%N.

Definition uescape (c : N) : jsstring :=
  [92; 117; hex_digit (c / 4096 mod 16); hex_digit (c / 256 mod 16);
   hex_digit (c / 16 mod 16); hex_digit (c mod 16)]%N.

Definition is_high_surrogate (c : N) : bool := (55296 <=? c)%N && (c <=? 56319)%N.
Definition is_low_surrogate (c : N) : bool := (56320 <=? c)%N && (c <=? 57343)%N.

(** One code unit that is not half of a surrogate pair. *)
Definition quote_unit (c : N) : jsstring :=
  if (c =? 8)%N then [92; 98]%N
  else if (c =? 9)%N then [92; 116]%N
  else if (c =? 10)%N then [92; 110]%N
  else if (c =? 12)%N then [92; 102]%N
  else if (c =? 13)%N then [92; 114]%N
  else if (c =? 34)%N then [92; 34]%N
  else if (c =? 92)%N then [92; 92]%N
  else if (c <? 32)%N then uescape c
  else if is_high_surrogate c || is_low_surrogate c then uescape c
  else [c].

(** The body of [QuoteJSONString]: a well-formed surrogate pair is
    copied, a lone surrogate is escaped. *)
Fixpoint quote_chars (s : jsstring) : jsstring :=
  match s with
  | [] => []
  | c :: r =>
    if is_high_surrogate c then
      match r with
      | d :: r' =>
        if is_low_surrogate d then c :: d :: quote_chars r'
        else quote_unit c ++ quote_chars r
      | [] => quote_unit c
      end
    else quote_unit c ++ quote_chars r
  end.

Definition quote (s : jsstring) : jsstring := 34%N :: quote_chars s ++ [34%N].

Fixpoint uint_codes (u : Decimal.uint) : jsstring :=
  match u with
  | Decimal.Nil => []
  | Decimal.D0 u => 48%N :: uint_codes u
  | Decimal.D1 u => 49%N :: uint_codes u
  | Decimal.D2 u => 50%N :: uint_codes u
  | Decimal.D3 u => 51%N :: uint_codes u
  | Decimal.D4 u => 52%N :: uint_codes u
  | Decimal.D5 u => 53%N :: uint_codes u
  | Decimal.D6 u => 54%N :: uint_codes u
  | Decimal.D7 u => 55%N :: uint_codes u
  | Decimal.D8 u => 56%N :: uint_codes u
  | Decimal.D9 u => 57%N :: uint_codes u
  end.

(** [z.toString()] for an integer. *)
Definition Z_toString (z : Z) : jsstring :=
  match Z.to_int z with
  | Decimal.Pos u => uint_codes u
  | Decimal.Neg u => 45%N :: uint_codes u
  end.

(** The elements of an array and the members of an object, separated
    by commas. *)
Definition join_elements (f : json -> jsstring) : list json -> jsstring :=
  fix go (l : list json) : jsstring :=
    match l with
    | [] => []
    | x :: r => f x ++ match r with [] => [] | _ :: _ => 44%N :: go r end
    end.

Definition join_members (f : json -> jsstring)
  : list (jsstring * json) -> jsstring :=
  fix go (m : list (jsstring * json)) : jsstring :=
    match m with
    | [] => []
    | (k, x) :: r =>
      quote k ++ 58%N :: f x
        ++ match r with [] => [] | _ :: _ => 44%N :: go r end
    end.

Fixpoint stringify (v : json) : jsstring :=
  match v with
  | JNull => utf16 "null"
  | JBool true => utf16 "true"
  | JBool false => utf16 "false"
  | JNum (Int z) => Z_toString z
  | JNum (Dec l) => l
  | JStr s => quote s
  | JArr l => 91%N :: join_elements stringify l ++ [93%N]
  | JObj m => 123%N :: join_members stringify m ++ [125%N]
  end.

Definition JSON_stringify (v : json) : jsstring := stringify v.

(** ** [JSON.parse] *)

Definition is_ws (c : N) : bool :=
  (c =? 32)%N || (c =? 9)%N || (c =? 10)%N || (c =? 13)%N.

Definition is_digit (c : N) : bool := (48 <=? c)%N && (c <=? 57)%N.

Fixpoint skip_ws (s : jsstring) : jsstring :=
  match s with
  | c :: r => if is_ws c then skip_ws r else s
  | [] => []
  end.

Definition hex_val (c : N) : option N :=
  if is_digit c then Some (c - 48)%N
  else if (97 <=? c)%N && (c <=? 102)%N then Some (c - 87)%N
  else if (65 <=? c)%N && (c <=? 70)%N then Some (c - 55)%N
  else None.

Definition hex4 (a b c d : N) : option N :=
  match hex_val a, hex_val b, hex_val c, hex_val d with
  | Some x, Some y, Some z, Some w => Some (x * 4096 + y * 256 + z * 16 + w)%N
  | _, _, _, _ => None
  end.

(** The character a one-letter escape stands for. *)
Definition unescape (e : N) : option N :=
  if (e =? 34)%N then Some 34%N
  else if (e =? 92)%N then Some 92%N
  else if (e =? 47)%N then Some 47%N
  else if (e =? 98)%N then Some 8%N
  else if (e =? 102)%N then Some 12%N
  else if (e =? 110)%N then Some 10%N
  else if (e =? 114)%N then Some 13%N
  else if (e =? 116)%N then Some 9%N
  else None.

Definition cons_chars (c : N) (p : option (jsstring * jsstring))
  : option (jsstring * jsstring) :=
  match p with
  | Some (s, r) => Some (c :: s, r)
  | None => None
  end.

(** The characters of a string literal, after its opening quote, up to
    and including the closing quote. *)
Fixpoint parse_chars (s : jsstring) : option (jsstring * jsstring) :=
  match s with
  | [] => None
  | c :: r =>
    if (c =? 34)%N then Some ([], r)
    else if (c =? 92)%N then
      match r with
      | [] => None
      | e :: r1 =>
        if (e =? 117)%N then
          match r1 with
          | h1 :: h2 :: h3 :: h4 :: r2 =>
            match hex4 h1 h2 h3 h4 with
            | Some u => cons_chars u (parse_chars r2)
            | None => None
            end
          | _ => None
          end
        else
          match unescape e with
          | Some u => cons_chars u (parse_chars r1)
          | None => None
          end
      end
    else if (c <? 32)%N then None
    else cons_chars c (parse_chars r)
  end.

Fixpoint span_digits (s : jsstring) : jsstring * jsstring :=
  match s with
  | c :: r =>
    if is_digit c then let (d, r') := span_digits r in (c :: d, r') else ([], s)
  | [] => ([], [])
  end.

Fixpoint codes_uint (ds : jsstring) : Decimal.uint :=
  match ds with
  | [] => Decimal.Nil
  | c :: r =>
    let u := codes_uint r in
    if (c =? 48)%N then Decimal.D0 u
    else if (c =? 49)%N then Decimal.D1 u
    else if (c =? 50)%N then Decimal.D2 u
    else if (c =? 51)%N then Decimal.D3 u
    else if (c =? 52)%N then Decimal.D4 u
    else if (c =? 53)%N then Decimal.D5 u
    else if (c =? 54)%N then Decimal.D6 u
    else if (c =? 55)%N then Decimal.D7 u
    else if (c =? 56)%N then Decimal.D8 u
    else Decimal.D9 u
  end.

(** The optional fraction: [.] and at least one digit. *)
Definition parse_fraction (s : jsstring) : option (jsstring * jsstring) :=
  match s with
  | c :: r =>
    if (c =? 46)%N then
      match span_digits r with
      | ([], _) => None
      | (f, r') => Some (c :: f, r')
      end
    else Some ([], s)
  | [] => Some ([], s)
  end.

(** The optional exponent: [e] or [E], an optional sign, at least one
    digit. *)
Definition parse_exponent (s : jsstring) : option (jsstring * jsstring) :=
  match s with
  | c :: r =>
    if (c =? 101)%N || (c =? 69)%N then
      let (sg, r1) :=
        match r with
        | g :: r0 => if (g =? 43)%N || (g =? 45)%N then ([g], r0) else ([], r)
        | [] => ([], r)
        end in
      match span_digits r1 with
      | ([], _) => None
      | (e, r') => Some (c :: sg ++ e, r')
      end
    else Some ([], s)
  | [] => Some ([], s)
  end.

Definition parse_number (s : jsstring) : option (number * jsstring) :=
  let (neg, s1) :=
    match s with
    | c :: r => if (c =? 45)%N then (true, r) else (false, s)
    | [] => (false, s)
    end in
  match span_digits s1 with
  | ([], _) => None
  | (d :: ds, s2) =>
    if (d =? 48)%N && negb (match ds with [] => true | _ :: _ => false end)
    then None
    else
      match parse_fraction s2 with
      | None => None
      | Some (f, s3) =>
        match parse_exponent s3 with
        | None => None
        | Some (e, s4) =>
          match f, e with
          | [], [] =>
            let z := Z.of_int (Decimal.Pos (codes_uint (d :: ds))) in
            Some (Int (if neg then - z else z)%Z, s4)
          | _, _ =>
            Some (Dec ((if neg then [45%N] else []) ++ d :: ds ++ f ++ e), s4)
          end
        end
      end
  end.

Fixpoint strip_prefix (p s : jsstring) : option jsstring :=
  match p, s with
  | [], _ => Some s
  | _ :: _, [] => None
  | a :: p', b :: s' => if (a =? b)%N then strip_prefix p' s' else None
  end.

Definition parse_literal (p : jsstring) (v : json) (s : jsstring)
  : option (json * jsstring) :=
  match strip_prefix p s with
  | Some r => Some (v, r)
  | None => None
  end.

(** Recursive descent on the grammar of ECMA-404.  [fuel] bounds the
    number of nested calls; [JSON_parse] supplies more than any text can
    use. *)
Fixpoint parse_value (fuel : nat) (s : jsstring) : option (json * jsstring) :=
  match fuel with
  | O => None
  | S fuel' =>
    match skip_ws s with
    | [] => None
    | c :: r =>
      if (c =? 34)%N then
        match parse_chars r with
        | Some (str, r') => Some (JStr str, r')
        | None => None
        end
      else if (c =? 91)%N then
        match skip_ws r with
        | [] => None
        | d :: r' =>
          if (d =? 93)%N then Some (JArr [], r')
          else
            match parse_elements fuel' (d :: r') with
            | Some (l, r'') => Some (JArr l, r'')
            | None => None
            end
        end
      else if (c =? 123)%N then
        match skip_ws r with
        | [] => None
        | d :: r' =>
          if (d =? 125)%N then Some (JObj [], r')
          else
            match parse_members fuel' (d :: r') with
            | Some (m, r'') => Some (JObj m, r'')
            | None => None
            end
        end
      else if (c =? 110)%N then parse_literal (utf16 "null") JNull (c :: r)
      else if (c =? 116)%N then parse_literal (utf16 "true") (JBool true) (c :: r)
      else if (c =? 102)%N then parse_literal (utf16 "false") (JBool false) (c :: r)
      else
        match parse_number (c :: r) with
        | Some (n, r') => Some (JNum n, r')
        | None => None
        end
    end
  end

with parse_elements (fuel : nat) (s : jsstring) : option (list json * jsstring) :=
  match fuel with
  | O => None
  | S fuel' =>
    match parse_value fuel' s with
    | None => None
    | Some (v, r) =>
      match skip_ws r with
      | [] => None
      | c :: r' =>
        if (c =? 44)%N then
          match parse_elements fuel' r' with
          | Some (l, r'') => Some (v :: l, r'')
          | None => None
          end
        else if (c =? 93)%N then Some ([v], r')
        else None
      end
    end
  end

with parse_members (fuel : nat) (s : jsstring)
  : option (list (jsstring * json) * jsstring) :=
  match fuel with
  | O => None
  | S fuel' =>
    match skip_ws s with
    | [] => None
    | q :: r0 =>
      if negb (q =? 34)%N then None else
      match parse_chars r0 with
      | None => None
      | Some (k, r1) =>
        match skip_ws r1 with
        | [] => None
        | c1 :: r2 =>
          if negb (c1 =? 58)%N then None else
          match parse_value fuel' r2 with
          | None => None
          | Some (v, r3) =>
            match skip_ws r3 with
            | [] => None
            | c :: r' =>
              if (c =? 44)%N then
                match parse_members fuel' r' with
                | Some (m, r'') => Some ((k, v) :: m, r'')
                | None => None
                end
              else if (c =? 125)%N then Some ([(k, v)], r')
              else None
            end
          end
        end
      end
    end
  end.

Definition parse (s : jsstring) : option json :=
  match parse_value (2 * length s + 2) s with
  | Some (v, r) => match skip_ws r with [] => Some v | _ :: _ => None end
  | None => None
  end.

(** [JSON.parse(text)]: the value, or a thrown [SyntaxError]. *)
Definition JSON_parse (eng : Engine) (text : jsstring) : completion json :=
  match parse text with
  | Some v => Return v
  | None => Throw (SyntaxError (syntaxErrorMessage eng text))
  end.

(** ** Values that survive a round trip *)

(** Values without a [Dec] literal: what the programs build themselves
    and what a service that honours the response schema sends. *)
Fixpoint plain (v : json) : bool :=
  match v with
  | JNum (Dec _) => false
  | JArr l => forallb plain l
  | JObj m => forallb (fun kv => plain (snd kv)) m
  | _ => true
  end.

(** Nested calls [parse_value] makes on the text of a value. *)
Fixpoint need (v : json) : nat :=
  match v with
  | JArr l => S (list_sum (map (fun x => S (need x)) l))
  | JObj m => S (list_sum (map (fun kv => S (need (snd kv))) m))
  | _ => 1
  end.

(** What may follow a number without being read as part of it. *)
Definition terminated (rest : jsstring) : Prop :=
  match rest with
  | [] => True
  | c :: _ =>
    is_digit c = false /\ c <> 46%N /\ c <> 101%N /\ c <> 69%N
  end.

Definition not_digit_head (rest : jsstring) : Prop :=
  match rest with
  | [] => True
  | c :: _ => is_digit c = false
  end.

(** What a separator or a closing bracket is not. *)
Definition opens_value (c : N) : Prop :=
  is_ws c = false /\ c <> 93%N /\ c <> 125%N.

(** The property the induction carries. *)
Definition reads_back (v : json) : Prop :=
  plain v = true ->
  forall fuel rest, (need v <= fuel)%nat -> terminated rest ->
    parse_value fuel (stringify v ++ rest) = Some (v, rest).

(** ** The inference service *)

(** [response.text] of the SDK: a string, or [undefined]. *)
Record Response := mkResponse { text : option jsstring }.

(** [process.env.API_KEY], and what [ai.models.generateContent] does on
    its [n]-th invocation for a given image: it resolves with a response
    or rejects with a thrown value. *)
Record Service := mkService {
  API_KEY : option jsstring;
  generateContent : Z -> jsstring -> completion Response
}.

(** The [required] lists of the response schema the programs send with
    the request (lines 41 and 46 of [index.tsx]): what the service is
    asked to produce. *)
Fixpoint member (k : jsstring) (m : list (jsstring * json)) : option json :=
  match m with
  | [] => None
  | (k', v) :: r => if jsstring_eqb k k' then Some v else member k r
  end.



(** ** First program of [index.tsx] *)

Module Basic.

(** [analyzeImage], lines 24-74.  The [as AnalysisResult] of the last
    line is a compile-time cast: the parsed value is returned as it is. *)
Definition analyzeImage (eng : Engine) (svc : Service) (call : Z)
  (base64Image : jsstring) : completion json :=
  response <- generateContent svc call base64Image ;;
  match text response with
  | Some (c :: t) => JSON_parse eng (c :: t)
  | _ => Throw (Error (utf16 "No response from AI"))
  end.

End Basic.

(** ** JavaScript numbers *)

(** A [number] is an IEEE 754 binary64 value; the operations are those
    of the specification of floating-point arithmetic of the Standard
    Library, rounding to nearest, ties to even. *)
Module Double.

Definition prec : Z := 53.
Definition emax : Z := 1024.

Definition double := SpecFloat.spec_float.

(** The number an integer literal or an integer-valued property
    denotes. *)
Definition of_Z (z : Z) : double :=
  SpecFloat.binary_normalize prec emax z 0 false.


(** [a / b] and [a * b]. *)
Definition div (a b : double) : double := SpecFloat.SFdiv prec emax a b.
Definition mul (a b : double) : double := SpecFloat.SFmul prec emax a b.

Definition compare (a b : double) : option comparison :=
  SpecFloat.SFcompare a b.

(** [Math.min(a, b)]: [NaN] when an argument is [NaN]; [-0] is below
    [+0]. *)
Definition min (a b : double) : double :=
  match compare a b with
  | None => SpecFloat.S754_nan
  | Some Lt => a
  | Some Gt => b
  | Some Eq =>
    match a with
    | SpecFloat.S754_zero true => a
    | _ => b
    end
  end.

(** The integral part of a number, towards zero; 0 for [NaN] and the
    infinities. *)
Definition integer_part (d : double) : Z :=
  match d with
  | SpecFloat.S754_finite s m e =>
    let a := Z.shiftl (Zpos m) e in
    if s then (- a)%Z else a
  | _ => 0%Z
  end.

(** The conversion of a number to an [unsigned long] attribute. *)
Definition to_unsigned_long (d : double) : Z :=
  (integer_part d mod 2 ^ 32)%Z.

(** An [unsigned long] attribute that reflects a content attribute
    takes its default when it is set above [2^31 - 1]. *)
Definition reflected (default v : Z) : Z :=
  if (2147483647 >=? v)%Z then v else default.


End Double.

(** ** Second program of [index.tsx] *)

Module Retrying.

Inductive event :=
| Attempt (n : Z)
| Wait (ms : Z).

Section RetryPolicy.

(** The call the wrapper guards: its outcome at the [n]-th attempt. *)
Variable analyzeImage : Z -> jsstring -> completion json.

(** The [for] loop of [analyzeImageWithRetry], lines 468-489, entered
    at [attempt] with [remaining] iterations to go: the loop test
    [attempt <= maxRetries] holds exactly when [remaining] is not zero.
    Next to the outcome the loop returns what it did: the attempts it
    made and the delays it slept, in order. *)
Fixpoint retry_loop (remaining : nat) (attempt maxRetries : Z)
  (base64Image : jsstring) : completion json * list event :=
  match remaining with
  | O => (Throw (Error (utf16 "Failed after multiple retries")), [])
  | S remaining' =>
    match analyzeImage attempt base64Image with
    | Return r => (Return r, [Attempt attempt])
    | Throw error =>
      if (status_is error 503 || status_is error 429)
         && (attempt <? maxRetries)%Z
      then
        let delay := (2 ^ attempt * 1000)%Z in
        let (res, tr) :=
          retry_loop remaining' (attempt + 1)%Z maxRetries base64Image in
        (res, Attempt attempt :: Wait delay :: tr)
      else (Throw error, [Attempt attempt])
    end
  end.

Definition analyzeImageWithRetry (base64Image : jsstring) (maxRetries : Z)
  : completion json * list event :=
  retry_loop (Z.to_nat maxRetries) 1%Z maxRetries base64Image.

End RetryPolicy.

(** The [catch] block of [analyzeImage], lines 562-582.
    [error.message.includes] is itself a [TypeError] when the caught
    value has no string [message]. *)
Definition classify (eng : Engine) (error : JSError) : completion json :=
  match message error with
  | None => Throw (TypeError (undefinedPropertyMessage eng))
  | Some msg =>
    if includes msg (utf16 "API_KEY") then
      Throw (Error (utf16
        "API Key 无效或未配置。请检查 .env.local 文件中的 GEMINI_API_KEY。"))
    else if includes msg (utf16 "quota") || status_is error 429 then
      Throw (Error (utf16
        "API 配额已用完。请稍后再试或检查您的 Gemini API 配额。"))
    else if status_is error 403 then
      Throw (Error (utf16 "API 访问被拒绝。请检查 API Key 权限设置。"))
    else if status_is error 400 then
      Throw (Error (utf16 "请求格式错误。图片可能损坏或格式不支持。"))
    else if jsstring_eqb (name error) (utf16 "NetworkError")
            || includes msg (utf16 "fetch") then
      Throw (Error (utf16 "网络连接失败。请检查网络连接并重试。"))
    else
      Throw (Error (utf16 "分析失败: "
                    ++ or_else (Some msg) (utf16 "未知错误")))
  end.

(** [analyzeImage], lines 491-583. *)
Definition analyzeImage (eng : Engine) (svc : Service) (call : Z)
  (base64Image : jsstring) : completion json :=
  if falsy (API_KEY svc) then
    Throw (Error (utf16
      "API Key not configured. Please check your .env.local file."))
  else
    let attempt :=
      response <- generateContent svc call base64Image ;;
      match text response with
      | Some (c :: t) => JSON_parse eng (c :: t)
      | _ => Throw (Error (utf16 "No response from AI"))
      end in
    match attempt with
    | Return r => Return r
    | Throw error => classify eng error
    end.

(** [analyzeImageWithRetry] as the program links it: around
    [analyzeImage]. *)
Definition analyzeImageWithRetry_linked (eng : Engine) (svc : Service)
  (base64Image : jsstring) (maxRetries : Z) : completion json * list event :=
  analyzeImageWithRetry (analyzeImage eng svc) base64Image maxRetries.

(** *** Image compression *)

(** [img.width] and [img.height] once the image has loaded. *)
Record Picture := mkPicture { width : Z; height : Z }.

(** What the browser decides during one call of the program:
    - [decode]: [img.onload] fires with the decoded picture, or
      [img.onerror] fires;
    - [context2d]: [canvas.getContext('2d')] is not [null];
    - [encode src w h q]: the base64 payload of
      [canvas.toDataURL('image/jpeg', q)] for [src] drawn on a [w] by [h]
      canvas;
    - [Date_now k]: the [k]-th reading of [Date.now()]. *)
Record Browser := mkBrowser {
  engine : Engine;
  decode : jsstring -> option Picture;
  context2d : bool;
  encode : jsstring -> Z -> Z -> Q -> jsstring;
  Date_now : nat -> Z
}.

(** [s.split(',')]. *)
Fixpoint split_comma (s : jsstring) : list jsstring :=
  match s with
  | [] => [[]]
  | c :: r =>
    if (c =? 44)%N then [] :: split_comma r
    else
      match split_comma r with
      | h :: t => (c :: h) :: t
      | [] => [[c]]
      end
  end.

(** [Math.min(maxWidth / img.width, maxWidth / img.height)], line 840,
    in the arithmetic of the engine.  [img.width] and [img.height] are
    integers; [maxWidth] is the integer the caller wrote. *)
Definition ratio (maxWidth : Z) (img : Picture) : Double.double :=
  Double.min (Double.div (Double.of_Z maxWidth) (Double.of_Z (width img)))
             (Double.div (Double.of_Z maxWidth) (Double.of_Z (height img))).

(** [canvas.width = img.width * ratio] and [canvas.height = img.height *
    ratio], lines 841-842, read back at line 844: the product is
    converted to the [unsigned long] of the attribute, whose defaults are
    300 and 150. *)
Definition canvas_width (maxWidth : Z) (img : Picture) : Z :=
  Double.reflected 300
    (Double.to_unsigned_long
       (Double.mul (Double.of_Z (width img)) (ratio maxWidth img))).

Definition canvas_height (maxWidth : Z) (img : Picture) : Z :=
  Double.reflected 150
    (Double.to_unsigned_long
       (Double.mul (Double.of_Z (height img)) (ratio maxWidth img))).

(** [compressImage], lines 828-855.  The promise is settled by
    [resolve] on every path: the executor has no [reject]. *)
Definition compressImage (b : Browser) (base64 : jsstring) (maxWidth : Z)
  (quality : Q) : completion jsstring :=
  match decode b base64 with
  | Some img =>
    if negb (context2d b) then Return base64
    else
      let w := canvas_width maxWidth img in
      let h := canvas_height maxWidth img in
      let dataUrl :=
        utf16 "data:image/jpeg;base64," ++ encode b base64 w h quality in
      Return (nth 1 (split_comma dataUrl) [])
  | None => Return base64
  end.

End Retrying.

(** ** [localStorage] *)

(** The slots of the origin, and how many code units (keys and values
    together) the medium accepts before [setItem] throws. *)
Record LocalStorage := mkLocalStorage {
  items : list (jsstring * jsstring);
  quota : Z
}.

Fixpoint lookup (k : jsstring) (l : list (jsstring * jsstring)) : option jsstring :=
  match l with
  | [] => None
  | (k', v) :: r => if jsstring_eqb k k' then Some v else lookup k r
  end.

Fixpoint put (k v : jsstring) (l : list (jsstring * jsstring))
  : list (jsstring * jsstring) :=
  match l with
  | [] => [(k, v)]
  | (k', v') :: r =>
    if jsstring_eqb k k' then (k, v) :: r else (k', v') :: put k v r
  end.

Fixpoint used (l : list (jsstring * jsstring)) : Z :=
  match l with
  | [] => 0
  | (k, v) :: r => (Z.of_nat (length k) + Z.of_nat (length v) + used r)%Z
  end.

(** [localStorage.getItem(k)]: the value, or [null]. *)
Definition getItem (ls : LocalStorage) (k : jsstring) : option jsstring :=
  lookup k (items ls).

(** [localStorage.setItem(k, v)]: it throws when what the origin would
    hold exceeds the quota. *)
Definition setItem (ls : LocalStorage) (k v : jsstring) : completion LocalStorage :=
  let items' := put k v (items ls) in
  if (quota ls <? used items')%Z then Throw QuotaExceededError
  else Return (mkLocalStorage items' (quota ls)).

(** ** The history store of the second program of [index.tsx] *)

Module History.

Import Retrying.

Inductive MealType := breakfast | lunch | dinner | snack.

Definition MealType_string (m : MealType) : jsstring :=
  match m with
  | breakfast => utf16 "breakfast"
  | lunch => utf16 "lunch"
  | dinner => utf16 "dinner"
  | snack => utf16 "snack"
  end.

(** The object literal of lines 875-881. *)
Definition MealRecord (id : jsstring) (timestamp : Z) (image : jsstring)
  (result : json) (mealType : MealType) : json :=
  JObj [(utf16 "id", JStr id);
        (utf16 "timestamp", JNum (Int timestamp));
        (utf16 "image", JStr image);
        (utf16 "result", result);
        (utf16 "mealType", JStr (MealType_string mealType))].

Definition mealHistory : jsstring := utf16 "mealHistory".

(** The elements a string iterator yields: code points. *)
Fixpoint code_points (s : jsstring) : list jsstring :=
  match s with
  | [] => []
  | c :: r =>
    match r with
    | d :: r' =>
      if is_high_surrogate c && is_low_surrogate d
      then [c; d] :: code_points r'
      else [c] :: code_points r
    | [] => [[c]]
    end
  end.

(** [...existingRecords] inside an array literal: arrays and strings are
    iterable, nothing else a JSON text denotes is. *)
Definition spread (eng : Engine) (v : json) : completion (list json) :=
  match v with
  | JArr l => Return l
  | JStr s => Return (map JStr (code_points s))
  | _ => Throw (TypeError (notIterableMessage eng))
  end.

(** [existingRecords.slice(0, n)]: arrays and strings have a [slice]. *)
Definition slice0 (eng : Engine) (n : nat) (v : json) : completion json :=
  match v with
  | JArr l => Return (JArr (firstn n l))
  | JStr s => Return (JStr (firstn n s))
  | _ => Throw (TypeError (undefinedPropertyMessage eng))
  end.

(** [saveMealRecord], lines 868-911.  The returned [completion] is the
    settlement of the promise; the storage is threaded through.  The test
    [testData.length > 4 * 1024 * 1024] is written with [<?], the bound
    first. *)
Definition saveMealRecord (b : Browser) (image : jsstring) (result : json)
  (mealType : MealType) (ls : LocalStorage) : completion unit * LocalStorage :=
  let attempt :=
    storageImage <- compressImage b image 200 (7 # 10) ;;
    apiImage <- compressImage b image 800 (8 # 10) ;;
    let record :=
      MealRecord (Z_toString (Date_now b 0%nat)) (Date_now b 1%nat)
                 storageImage result mealType in
    existingRecords <-
      JSON_parse (engine b) (or_else (getItem ls mealHistory) (utf16 "[]")) ;;
    existing <- spread (engine b) existingRecords ;;
    let updatedRecords := firstn 20 (record :: existing) in
    let testData := JSON_stringify (JArr updatedRecords) in
    if (4 * 1024 * 1024 <? Z.of_nat (length testData))%Z then
      let minimalRecords := firstn 10 updatedRecords in
      setItem ls mealHistory (JSON_stringify (JArr minimalRecords))
    else
      setItem ls mealHistory (JSON_stringify (JArr updatedRecords)) in
  match attempt with
  | Return ls' => (Return tt, ls')
  | Throw error =>
    if jsstring_eqb (name error) (utf16 "QuotaExceededError") then
      let recover :=
        existingRecords <-
          JSON_parse (engine b) (or_else (getItem ls mealHistory) (utf16 "[]")) ;;
        recentRecords <- slice0 (engine b) 5 existingRecords ;;
        setItem ls mealHistory (JSON_stringify recentRecords) in
      match recover with
      | Return ls' => (Return tt, ls')
      | Throw e => (Throw e, ls)
      end
    else (Return tt, ls)
  end.

(** [getMealHistory], lines 913-920. *)
Definition getMealHistory (eng : Engine) (ls : LocalStorage) : completion json :=
  match JSON_parse eng (or_else (getItem ls mealHistory) (utf16 "[]")) with
  | Return v => Return v
  | Throw error => Return (JArr [])
  end.

End History.

(** ** [app.tsx] *)

Module Tabbed.

(** [analyzeImage], lines 35-85. *)
Definition analyzeImage (eng : Engine) (svc : Service) (call : Z)
  (base64Image : jsstring) : completion json :=
  response <- generateContent svc call base64Image ;;
  match text response with
  | Some (c :: t) => JSON_parse eng (c :: t)
  | _ => Throw (Error (utf16 "No response from AI"))
  end.

Definition STORAGE_KEY : jsstring := utf16 "capforeat_data".

(** [loadData], lines 90-97. *)
Definition loadData (eng : Engine) (ls : LocalStorage) : completion json :=
  match getItem ls STORAGE_KEY with
  | Some (c :: d) =>
    match JSON_parse eng (c :: d) with
    | Return v => Return v
    | Throw _ => Return (JArr [])
    end
  | _ => Return (JArr [])
  end.

(** [saveData], lines 99-105. *)
Definition saveData (records : list json) (ls : LocalStorage) : LocalStorage :=
  match setItem ls STORAGE_KEY (JSON_stringify (JArr records)) with
  | Return ls' => ls'
  | Throw _ => ls
  end.

(** The own enumerable properties an object spread copies. *)
Fixpoint indexed (i : Z) (l : list json) : list (jsstring * json) :=
  match l with
  | [] => []
  | x :: r => (Z_toString i, x) :: indexed (i + 1)%Z r
  end.

Definition own_properties (v : json) : list (jsstring * json) :=
  match v with
  | JObj m => m
  | JArr l => indexed 0%Z l
  | JStr s => indexed 0%Z (map (fun c => JStr [c]) s)
  | _ => []
  end.

(** A property set after the spread keeps the place of a property of
    that name, if there is one, and goes to the end otherwise. *)
Fixpoint set_property (k : jsstring) (v : json) (m : list (jsstring * json))
  : list (jsstring * json) :=
  match m with
  | [] => [(k, v)]
  | (k', v') :: r =>
    if jsstring_eqb k k' then (k, v) :: r else (k', v') :: set_property k v r
  end.

(** The state of [App] that [handleSaveRecord] reads and writes. *)
Record AppState := mkAppState {
  records : list json;
  analysisImage : option jsstring;
  storage : LocalStorage
}.

(** [handleSaveRecord], lines 598-614. *)
Definition handleSaveRecord (now : nat -> Z) (result : json) (st : AppState)
  : AppState :=
  match analysisImage st with
  | Some (c :: d) =>
    let newRecord :=
      JObj (set_property (utf16 "image") (JStr (c :: d))
             (set_property (utf16 "timestamp") (JNum (Int (now 1%nat)))
               (set_property (utf16 "id") (JStr (Z_toString (now 0%nat)))
                 (own_properties result)))) in
    let updatedRecords := records st ++ [newRecord] in
    mkAppState updatedRecords None (saveData updatedRecords (storage st))
  | _ => st
  end.

End Tabbed.

(** ** Reading a run of the retry policy *)

Module Schedule.

Import Retrying.

(** The attempts a run made, in order. *)
Fixpoint attempts (tr : list event) : list Z :=
  match tr with
  | [] => []
  | Attempt n :: r => n :: attempts r
  | Wait _ :: r => attempts r
  end.

(** The failure categories the wrapper treats as transient. *)
Definition transient (e : JSError) : Prop :=
  status e = Some 503%Z \/ status e = Some 429%Z.

(** The run of [k] attempts from attempt [a] on: after a failed attempt
    [n] that is retried the loop sleeps [2^n] seconds (line 477); times
    are in milliseconds. *)
Fixpoint attempts_from (a : Z) (k : nat) : list event :=
  match k with
  | O => []
  | S k' =>
    Attempt a ::
    match k' with
    | O => []
    | S _ => Wait (2 ^ a * 1000)%Z :: attempts_from (a + 1)%Z k'
    end
  end.

(** A rate-limited and a rejected request, as the service reports them. *)
Definition rate_limited : JSError :=
  mkJSError (utf16 "ApiError") (Some (utf16 "Resource has been exhausted"))
            (Some 429%Z).

Definition bad_request : JSError :=
  mkJSError (utf16 "ApiError") (Some (utf16 "Unable to process input image"))
            (Some 400%Z).

End Schedule.

(** ** The history store in the words of the specification *)

Module HistoryModel.

Import Retrying History.

(** The byte budget of the specification: 4 MiB. *)
Definition budget : Z := 4 * 1024 * 1024.

(** The size of a collection once serialized. *)
Definition serialized_size (l : list json) : Z :=
  Z.of_nat (length (JSON_stringify (JArr l))).

(** [save] as section 4.4 describes it: prepend, truncate to 20,
    serialize, and truncate to 10 when the text exceeds the budget. *)
Definition next_history (record : json) (current : list json) : list json :=
  let updated := firstn 20 (record :: current) in
  if (budget <? serialized_size updated)%Z then firstn 10 updated
  else updated.

Definition history_after (records current : list json) : list json :=
  fold_left (fun cur r => next_history r cur) records current.

(** The image a save stores and the record it builds. *)
Definition storage_image (b : Browser) (image : jsstring) : jsstring :=
  match compressImage b image 200 (7 # 10) with
  | Return s => s
  | Throw _ => image
  end.

Definition new_record (b : Browser) (image : jsstring) (result : json)
  (mealType : MealType) : json :=
  MealRecord (Z_toString (Date_now b 0%nat)) (Date_now b 1%nat)
             (storage_image b image) result mealType.

(** The storage slot holds the collection [current]; an absent or empty
    slot holds the empty collection. *)
Definition holds (ls : LocalStorage) (current : list json) : Prop :=
  getItem ls mealHistory = Some (JSON_stringify (JArr current))
  \/ (current = [] /\ falsy (getItem ls mealHistory) = true).

(** The state a save leaves when the medium accepts the write. *)
Definition stored (ls : LocalStorage) (h : list json) : LocalStorage :=
  mkLocalStorage (put mealHistory (JSON_stringify (JArr h)) (items ls))
                 (quota ls).

(** What the other slots and the key of the history take of the quota. *)
Definition base (ls : LocalStorage) : Z := used (put mealHistory [] (items ls)).

(** One call of [saveMealRecord] with what the browser decides during
    it. *)
Record Meal := mkMeal {
  meal_browser : Browser;
  meal_image : jsstring;
  meal_result : json;
  meal_type : MealType
}.

Definition save (ls : LocalStorage) (m : Meal) : LocalStorage :=
  snd (saveMealRecord (meal_browser m) (meal_image m) (meal_result m)
                      (meal_type m) ls).

Definition save_all (ms : list Meal) (ls : LocalStorage) : LocalStorage :=
  fold_left save ms ls.

Definition record_of (m : Meal) : json :=
  new_record (meal_browser m) (meal_image m) (meal_result m) (meal_type m).

(** Every collection on the way stays within [limit] once serialized,
    when each save keeps the 20 most recent records. *)
Fixpoint within (limit : Z) (records current : list json) : bool :=
  match records with
  | [] => true
  | r :: rs =>
    let h := firstn 20 (r :: current) in
    (limit >=? serialized_size h)%Z && within limit rs h
  end.

(** The sizes of the records of a collection, summed, and collections
    whose records all have the size [s]. *)
Definition sizes (l : list json) : Z :=
  fold_right (fun x acc => (Z.of_nat (length (stringify x)) + acc)%Z) 0%Z l.

Definition uniform (s : Z) (l : list json) : Prop :=
  Forall (fun x => Z.of_nat (length (stringify x)) = s) l.

(** Every collection the model stores fits in [room]. *)
Fixpoint affordable (room : Z) (records current : list json) : bool :=
  match records with
  | [] => true
  | r :: rs =>
    let h := next_history r current in
    (room >=? serialized_size h)%Z && affordable room rs h
  end.

End HistoryModel.

(** Every error the [catch] block constructs is fresh: a message and no
    status. *)
Definition fresh (e : JSError) : Prop :=
  status e = None
  /\ (exists msg, message e = Some msg)
  /\ (name e = utf16 "Error" \/ name e = utf16 "TypeError").

(** ** Sample environments *)

Module Samples.

Import Retrying.

(** An engine with the wording of V8, without the excerpt of the text
    it appends to a syntax error. *)
Definition v8 : Engine :=
  mkEngine (fun _ => utf16 "Unexpected token in JSON")
           (utf16 "existingRecords is not iterable")
           (utf16 "Cannot read properties of undefined").

(** A configured client whose every request is rate limited. *)
Definition throttled : Service :=
  mkService (Some (utf16 "AIza-key")) (fun _ _ => Throw Schedule.rate_limited).

(** A service that is rate limited on its first three requests and
    answers with a fixed text from the fourth on. *)
Definition recovering (t : jsstring) : Service :=
  mkService (Some (utf16 "AIza-key"))
            (fun call _ =>
               if (call <=? 3)%Z then Throw Schedule.rate_limited
               else Return (mkResponse (Some t))).

(** A service that answers with a fixed text. *)
Definition answering (t : option jsstring) : Service :=
  mkService (Some (utf16 "AIza-key")) (fun _ _ => Return (mkResponse t)).

(** A browser that cannot decode what it is given. *)
Definition undecodable (now : nat -> Z) : Browser :=
  mkBrowser v8 (fun _ => None) true (fun _ _ _ _ => []) now.


(** The analysis of the end-to-end example of the specification. *)
Definition salad : json :=
  JObj [(utf16 "foodName", JStr (utf16 "Grilled Chicken Salad"));
        (utf16 "calories", JNum (Int 420));
        (utf16 "servingSize", JStr (utf16 "1 bowl"));
        (utf16 "macros",
         JObj [(utf16 "protein", JNum (Int 38));
               (utf16 "carbs", JNum (Int 12));
               (utf16 "fat", JNum (Int 18));
               (utf16 "fiber", JNum (Int 5))]);
        (utf16 "healthAnalysis", JStr (utf16 "Lean protein and greens."));
        (utf16 "rating", JNum (Int 8))].

(** The same analysis without the fiber and without the rating. *)
Definition incomplete : json :=
  JObj [(utf16 "foodName", JStr (utf16 "Grilled Chicken Salad"));
        (utf16 "calories", JNum (Int 420));
        (utf16 "servingSize", JStr (utf16 "1 bowl"));
        (utf16 "macros",
         JObj [(utf16 "protein", JNum (Int 38));
               (utf16 "carbs", JNum (Int 12));
               (utf16 "fat", JNum (Int 18))]);
        (utf16 "healthAnalysis", JStr (utf16 "Lean protein and greens."))].

(** An origin with nothing stored and room for 5 Mi code units. *)
Definition empty_origin : LocalStorage := mkLocalStorage [] (5 * 1024 * 1024).

(** A browser that decodes every input and whose encoder answers with a
    short thumbnail. *)
Definition thumbnailer (now : nat -> Z) : Browser :=
  mkBrowser v8 (fun _ => Some (mkPicture 1024 768)) true
            (fun _ _ _ _ => utf16 "/9j/2wBDAAYEBQYFBAYGBQYHBwYIChAKCgkJChQODwwQFxQYGBcU")
            now.

(** The [i]-th photograph of a session: taken [i] ms after the first. *)
Definition snapshot (i : Z) : HistoryModel.Meal :=
  HistoryModel.mkMeal (thumbnailer (fun _ => 1700000000000 + i)%Z)
                      (utf16 "/9j/4AAQSkZJRgABAQAAAQABAAD") salad History.snack.

Definition snapshots (n : nat) : list HistoryModel.Meal :=
  map (fun k => snapshot (Z.of_nat k)) (seq 1 n).

(** A 430000-character upload the browser cannot decode, so that it is
    stored as it came. *)
Definition photo : jsstring := repeat 65%N (N.to_nat 430000).

Definition upload (i : Z) : HistoryModel.Meal :=
  HistoryModel.mkMeal (undecodable (fun _ => 1700000000000 + i)%Z)
                      photo salad History.snack.

Definition uploads (n : nat) : list HistoryModel.Meal :=
  map (fun k => upload (Z.of_nat k)) (seq 1 n).

(** What the record of an upload holds next to the photograph. *)
Definition upload_rest (i : Z) : Z :=
  (51 + Z.of_nat (length (quote (Z_toString (1700000000000 + i))))
   + Z.of_nat (length (Z_toString (1700000000000 + i)))
   + Z.of_nat (length (stringify salad))
   + Z.of_nat (length (quote (History.MealType_string History.snack))))%Z.

End Samples.

(** ** The time a run of the retry policy sleeps *)

Module Timing.

Import Retrying.

(** The delays of a run, added up, in milliseconds. *)
Fixpoint waited (tr : list event) : Z :=
  match tr with
  | [] => 0
  | Attempt _ :: r => waited r
  | Wait ms :: r => (ms + waited r)%Z
  end.

End Timing.

(** ** The screen of the second program of [index.tsx] *)

Module Screen.

Import Retrying History.

(** The state of [App], lines 1016-1022. *)
Record App := mkApp {
  image : option jsstring;
  result : option json;
  loading : bool;
  cameraOpen : bool;
  error : option jsstring;
  showHistory : bool;
  history : json
}.

Definition setImage (v : option jsstring) (st : App) : App :=
  mkApp v (result st) (loading st) (cameraOpen st) (error st)
        (showHistory st) (history st).

Definition setResult (v : option json) (st : App) : App :=
  mkApp (image st) v (loading st) (cameraOpen st) (error st)
        (showHistory st) (history st).

Definition setLoading (v : bool) (st : App) : App :=
  mkApp (image st) (result st) v (cameraOpen st) (error st)
        (showHistory st) (history st).

Definition setCameraOpen (v : bool) (st : App) : App :=
  mkApp (image st) (result st) (loading st) v (error st)
        (showHistory st) (history st).

Definition setError (v : option jsstring) (st : App) : App :=
  mkApp (image st) (result st) (loading st) (cameraOpen st) v
        (showHistory st) (history st).

Definition setHistory (v : json) (st : App) : App :=
  mkApp (image st) (result st) (loading st) (cameraOpen st) (error st)
        (showHistory st) v.

(** [handleCameraCapture], lines 1038-1043, and [reset], lines
    1068-1072. *)
Definition handleCameraCapture (base64 : jsstring) (st : App) : App :=
  setError None (setResult None (setCameraOpen false (setImage (Some base64) st))).

Definition reset (st : App) : App :=
  setError None (setResult None (setImage None st)).

(** The [catch] block of [handleAnalyze], lines 1060-1063. *)
Definition failed (err : JSError) (st : App) : App :=
  setError (Some (utf16 "Failed to analyze image. Please try again. "
                  ++ or_else (message err) []))
           st.

(** [handleAnalyze], lines 1045-1066: the state of the component and of
    the storage once the handler has finished, and the attempts and
    delays of the analysis.  [analyzeImageWithRetry] is called with its
    default [maxRetries = 3] and [saveMealRecord] with its default
    [mealType = 'snack']. *)
Definition handleAnalyze (b : Browser) (svc : Service) (st : App)
  (ls : LocalStorage) : App * LocalStorage * list event :=
  match image st with
  | Some (c :: d) =>
    let started := setError None (setLoading true st) in
    match compressImage b (c :: d) 800 (8 # 10) with
    | Throw err => (setLoading false (failed err started), ls, [])
    | Return apiImage =>
      let run := analyzeImageWithRetry_linked (engine b) svc apiImage 3 in
      match fst run with
      | Throw err => (setLoading false (failed err started), ls, snd run)
      | Return data =>
        let analysed := setResult (Some data) started in
        let saved := saveMealRecord b (c :: d) data snack ls in
        match fst saved with
        | Throw err =>
          (setLoading false (failed err analysed), snd saved, snd run)
        | Return _ =>
          match getMealHistory (engine b) (snd saved) with
          | Return h =>
            (setLoading false (setHistory h analysed), snd saved, snd run)
          | Throw err =>
            (setLoading false (failed err analysed), snd saved, snd run)
          end
        end
      end
    end
  | _ => (st, ls, [])
  end.

End Screen.

(** ** The pages of [app.tsx] *)

Module Daily.

(** A record of the collection, read as the interfaces of lines 7-24
    declare it, except for what [getTodayStats] computes with, which is
    kept as it is found in the stored JSON: [calories] and the fields of
    [macros] are JSON values, absent when the property is [undefined];
    [macros] itself is absent when it is [undefined] or [null], and
    reading a field of it then throws. *)
Record MacroNutrients := mkMacroNutrients {
  protein : option json;
  carbs : option json;
  fat : option json;
  fiber : option json
}.

Record AnalysisResult := mkAnalysisResult {
  id : jsstring;
  timestamp : Z;
  foodName : jsstring;
  calories : option json;
  servingSize : jsstring;
  macros : option MacroNutrients;
  healthAnalysis : jsstring;
  rating : Z;
  image : jsstring
}.

(** The [+] of the engine as [reduce] uses it: the running total, which
    starts from the number [0], and the value found in a record.  What
    it returns (the sum of two doubles, [NaN], a concatenation of
    strings) is for the engine to say. *)
Record Arithmetic := mkArithmetic {
  value : Type;
  zero : value;
  add : value -> option json -> value
}.

(** The interface of lines 26-32, with the totals as the engine
    computed them. *)
Record DailyStats (V : Type) := mkDailyStats {
  totalCalories : V;
  totalProtein : V;
  totalCarbs : V;
  totalFat : V;
  mealCount : nat
}.

Arguments mkDailyStats {V} _ _ _ _ _.
Arguments totalCalories {V} _.
Arguments totalProtein {V} _.
Arguments totalCarbs {V} _.
Arguments totalFat {V} _.
Arguments mealCount {V} _.

(** [new Date()] at the call, and [new Date(t).toDateString()], which
    depends on the time zone of the browser. *)
Record Calendar := mkCalendar {
  now : Z;
  toDateString : Z -> jsstring
}.

(** [todayRecords.reduce((sum, r) => sum + r.macros.f, 0)]: reading [f]
    of an absent [macros] is a [TypeError]. *)
Fixpoint reduce_macros (eng : Engine) (ar : Arithmetic)
  (f : MacroNutrients -> option json) (todayRecords : list AnalysisResult)
  (sum : value ar) : completion (value ar) :=
  match todayRecords with
  | [] => Return sum
  | r :: rest =>
    match macros r with
    | Some m => reduce_macros eng ar f rest (add ar sum (f m))
    | None => Throw (TypeError (undefinedPropertyMessage eng))
    end
  end.

(** [getTodayStats], lines 107-119.  The properties of the object
    literal are computed in the order they are written. *)
Definition getTodayStats (eng : Engine) (ar : Arithmetic) (cal : Calendar)
  (records : list AnalysisResult) : completion (DailyStats (value ar)) :=
  let today := toDateString cal (now cal) in
  let todayRecords :=
    filter (fun r => jsstring_eqb (toDateString cal (timestamp r)) today)
           records in
  let calories_total :=
    fold_left (fun sum r => add ar sum (calories r)) todayRecords (zero ar) in
  protein_total <- reduce_macros eng ar protein todayRecords (zero ar) ;;
  carbs_total <- reduce_macros eng ar carbs todayRecords (zero ar) ;;
  fat_total <- reduce_macros eng ar fat todayRecords (zero ar) ;;
  Return (mkDailyStats calories_total protein_total carbs_total fat_total
                       (length todayRecords)).

(** The accumulator of [groupedRecords] is an object used as a map from
    date strings to arrays; its keys are kept in the order they were
    added (a date string is not an array index).
    [if (!acc[date]) acc[date] = []; acc[date].push(record)]. *)
Fixpoint push_to (date : jsstring) (record : AnalysisResult)
  (acc : list (jsstring * list AnalysisResult))
  : list (jsstring * list AnalysisResult) :=
  match acc with
  | [] => [(date, [record])]
  | (d, rs) :: rest =>
    if jsstring_eqb date d then (d, rs ++ [record]) :: rest
    else (d, rs) :: push_to date record rest
  end.

(** [groupedRecords] of [HistoryPage], lines 307-312. *)
Definition groupedRecords (cal : Calendar) (records : list AnalysisResult)
  : list (jsstring * list AnalysisResult) :=
  fold_left (fun acc record =>
               push_to (toDateString cal (timestamp record)) record acc)
            records [].

(** [acc[date]]. *)
Fixpoint group (date : jsstring) (acc : list (jsstring * list AnalysisResult))
  : option (list AnalysisResult) :=
  match acc with
  | [] => None
  | (d, rs) :: rest => if jsstring_eqb date d then Some rs else group date rest
  end.

(** The records of one day, in the order of the collection. *)
Definition of_day (cal : Calendar) (date : jsstring)
  (records : list AnalysisResult) : list AnalysisResult :=
  filter (fun r => jsstring_eqb (toDateString cal (timestamp r)) date) records.

End Daily.

(** ** A session of [app.tsx] *)

Module Session.

Import Tabbed.

(** [setAnalysisImage], which [App] passes to [CapturePage] as
    [onCapture] (line 630). *)
Definition setAnalysisImage (img : option jsstring) (st : AppState)
  : AppState :=
  mkAppState (records st) img (storage st).

(** One meal of a session: the image captured, the readings of the clock
    during the save, and the analysis the user saves. *)
Record Step := mkStep {
  step_image : jsstring;
  step_now : nat -> Z;
  step_result : json
}.

Definition capture_and_save (st : AppState) (s : Step) : AppState :=
  handleSaveRecord (step_now s) (step_result s)
                   (setAnalysisImage (Some (step_image s)) st).

Definition session (steps : list Step) (st : AppState) : AppState :=
  fold_left capture_and_save steps st.

End Session.

(** ** More sample environments *)

Module Cases.

Import Retrying.

(** A clock in UTC: the date string of an instant is the number of the
    day it falls on. *)
Definition utc (now : Z) : Daily.Calendar :=
  Daily.mkCalendar now (fun t => Z_toString (t / 86400000)%Z).

Definition meal (t kcal : Z) : Daily.AnalysisResult :=
  Daily.mkAnalysisResult (Z_toString t) t (utf16 "Grilled Chicken Salad")
    (Some (JNum (Int kcal))) (utf16 "1 bowl")
    (Some (Daily.mkMacroNutrients (Some (JNum (Int 38))) (Some (JNum (Int 12)))
                                  (Some (JNum (Int 18))) (Some (JNum (Int 5)))))
    (utf16 "Lean protein and greens.") 8 (utf16 "/9j/4AAQ").

(** An arithmetic that keeps a total as the sequence of its operands,
    from left to right. *)
Definition operands : Daily.Arithmetic :=
  Daily.mkArithmetic (list (option json)) [] (fun sum x => sum ++ [x]).

(** An origin whose other slots leave no room for the history. *)
Definition crowded : LocalStorage :=
  mkLocalStorage [(utf16 "theme", utf16 "dark")] 9.

(** An origin whose history slot holds a truncated text. *)
Definition corrupted : LocalStorage :=
  mkLocalStorage [(History.mealHistory, utf16 "[{id:170000")] (5 * 1024 * 1024).

(** The screen before the first photograph, and with a photograph
    chosen. *)
Definition blank : Screen.App :=
  Screen.mkApp None None false false None false (JArr []).

Definition chosen : Screen.App :=
  Screen.setImage (Some (utf16 "/9j/4AAQSkZJRgABAQAAAQABAAD")) blank.

(** An origin filled to its quota by a history of six records. *)
Definition six : list json :=
  rev (map HistoryModel.record_of (Samples.snapshots 6)).

Definition brimful : LocalStorage :=
  mkLocalStorage [(History.mealHistory, JSON_stringify (JArr six))]
                 (11 + Z.of_nat (length (JSON_stringify (JArr six)))).

End Cases.

(* ================================================================== *)
(** * Part II: properties                                              *)
(* ================================================================== *)

(** ** The retry policy *)

Module RetryFacts.

Import Retrying Schedule.

Lemma status_is_true (e : JSError) (n : Z) :
  status_is e n = true <-> status e = Some n.
Proof.
  unfold status_is. destruct (status e) as [s|].
  - rewrite Z.eqb_eq. split; congruence.
  - split; discriminate.
Qed.

Lemma transient_test (e : JSError) :
  status_is e 503 || status_is e 429 = true <-> transient e.
Proof.
  unfold transient. rewrite orb_true_iff, !status_is_true. tauto.
Qed.

Lemma not_transient_test (e : JSError) :
  ~ transient e -> status_is e 503 || status_is e 429 = false.
Proof.
  intros H. destruct (status_is e 503 || status_is e 429) eqn:E; auto.
  apply transient_test in E. contradiction.
Qed.

Section Wrapper.

Variable analyzeImage : Z -> jsstring -> completion json.
Variable base64Image : jsstring.

Let loop := retry_loop analyzeImage.

(** One iteration, by cases on what the guarded call does. *)
Lemma loop_success remaining attempt maxRetries r :
  analyzeImage attempt base64Image = Return r ->
  loop (S remaining) attempt maxRetries base64Image
  = (Return r, [Attempt attempt]).
Proof. intros H. unfold loop. simpl. rewrite H. reflexivity. Qed.

Lemma loop_fatal remaining attempt maxRetries e :
  analyzeImage attempt base64Image = Throw e ->
  ~ transient e ->
  loop (S remaining) attempt maxRetries base64Image
  = (Throw e, [Attempt attempt]).
Proof.
  intros H Hn. unfold loop. simpl. rewrite H.
  rewrite (not_transient_test e Hn). reflexivity.
Qed.

Lemma loop_last remaining maxRetries e :
  analyzeImage maxRetries base64Image = Throw e ->
  loop (S remaining) maxRetries maxRetries base64Image
  = (Throw e, [Attempt maxRetries]).
Proof.
  intros H. unfold loop. simpl. rewrite H.
  rewrite Z.ltb_irrefl, andb_false_r. reflexivity.
Qed.

Lemma loop_retry remaining attempt maxRetries e :
  analyzeImage attempt base64Image = Throw e ->
  transient e ->
  (attempt < maxRetries)%Z ->
  loop (S remaining) attempt maxRetries base64Image
  = (fst (loop remaining (attempt + 1)%Z maxRetries base64Image),
     Attempt attempt :: Wait (2 ^ attempt * 1000)%Z
       :: snd (loop remaining (attempt + 1)%Z maxRetries base64Image)).
Proof.
  intros H Ht Hlt. unfold loop. simpl. rewrite H.
  apply transient_test in Ht. rewrite Ht.
  apply Z.ltb_lt in Hlt. rewrite Hlt. simpl.
  destruct (retry_loop analyzeImage remaining (attempt + 1) maxRetries
              base64Image). reflexivity.
Qed.

(** Every attempt of a run entered at [a] is numbered [a] or more, and
    an attempt after [a] follows a transient failure of the one before. *)
Lemma loop_attempts_ge remaining :
  forall a maxRetries n,
    In (Attempt n) (snd (loop remaining a maxRetries base64Image)) ->
    (a <= n)%Z.
Proof.
  unfold loop. induction remaining as [|k IH]; intros a M n; simpl.
  - intros [].
  - destruct (analyzeImage a base64Image) as [r|e].
    + simpl. intros [H|[]]. inversion H. lia.
    + destruct ((status_is e 503 || status_is e 429) && (a <? M)%Z).
      * specialize (IH (a + 1)%Z M n).
        destruct (retry_loop analyzeImage k (a + 1) M base64Image) as [res tr].
        simpl in *. intros [H|[H|H]].
        -- inversion H. lia.
        -- discriminate.
        -- apply IH in H. lia.
      * simpl. intros [H|[]]. inversion H. lia.
Qed.

Lemma loop_retry_cause remaining :
  forall a maxRetries n,
    (a < n)%Z ->
    In (Attempt n) (snd (loop remaining a maxRetries base64Image)) ->
    exists e, analyzeImage (n - 1)%Z base64Image = Throw e /\ transient e.
Proof.
  unfold loop. induction remaining as [|k IH]; intros a M n Hlt; simpl.
  - intros [].
  - destruct (analyzeImage a base64Image) as [r|e] eqn:E.
    + simpl. intros [H|[]]. inversion H. lia.
    + destruct ((status_is e 503 || status_is e 429) && (a <? M)%Z) eqn:T.
      * pose proof (IH (a + 1)%Z M n) as IHn.
        pose proof (loop_attempts_ge k (a + 1)%Z M n) as Hge. unfold loop in Hge.
        destruct (retry_loop analyzeImage k (a + 1) M base64Image) as [res tr].
        simpl in *. intros [H|[H|H]].
        -- inversion H. lia.
        -- discriminate.
        -- destruct (Z.eq_dec n (a + 1)) as [->|Hne].
           ++ replace (a + 1 - 1)%Z with a by lia. exists e. split; auto.
              apply andb_true_iff in T. apply transient_test. tauto.
           ++ apply IHn; auto. specialize (Hge H). lia.
      * simpl. intros [H|[]]. inversion H. lia.
Qed.

(** A failure that is not transient ends the run where it happens. *)
Lemma loop_fatal_stops remaining :
  forall a maxRetries n e,
    In (Attempt n) (snd (loop remaining a maxRetries base64Image)) ->
    analyzeImage n base64Image = Throw e ->
    ~ transient e ->
    fst (loop remaining a maxRetries base64Image) = Throw e
    /\ forall m, In (Attempt m) (snd (loop remaining a maxRetries base64Image))
                 -> (m <= n)%Z.
Proof.
  unfold loop. induction remaining as [|k IH]; intros a M n e; simpl.
  - intros [].
  - destruct (analyzeImage a base64Image) as [r|e'] eqn:E.
    + simpl. intros [H|[]] Hn. inversion H; subst. congruence.
    + destruct ((status_is e' 503 || status_is e' 429) && (a <? M)%Z) eqn:T.
      * pose proof (IH (a + 1)%Z M n e) as IHn.
        pose proof (loop_attempts_ge k (a + 1)%Z M n) as Hge. unfold loop in Hge.
        destruct (retry_loop analyzeImage k (a + 1) M base64Image) as [res tr].
        simpl in *. intros [H|[H|H]] Hn Hnt.
        -- inversion H; subst. rewrite E in Hn. inversion Hn; subst.
           apply andb_true_iff in T. destruct T as [T _].
           apply transient_test in T. contradiction.
        -- discriminate.
        -- destruct (IHn H Hn Hnt) as [Hres Hmax]. split; auto.
           intros m [Hm|[Hm|Hm]].
           ++ inversion Hm; subst. specialize (Hge H). lia.
           ++ discriminate.
           ++ auto.
      * simpl. intros [H|[]] Hn Hnt. inversion H; subst.
        rewrite E in Hn. inversion Hn; subst. split; auto.
        intros m [Hm|[]]. inversion Hm. lia.
Qed.

End Wrapper.

(** *** The schedule of a run *)

Lemma attempts_attempts_from (k : nat) :
  forall a, length (attempts (attempts_from a k)) = k.
Proof.
  induction k as [|k IH]; intros a; [reflexivity|].
  simpl. destruct k as [|k]; [reflexivity|].
  change (attempts (Wait (2 ^ a * 1000) :: attempts_from (a + 1) (S k)))
    with (attempts (attempts_from (a + 1) (S k))).
  rewrite IH. reflexivity.
Qed.

(** The loop entered at [a] with the iterations the [for] statement
    leaves it walks an initial segment of the schedule. *)
Lemma loop_schedule (analyzeImage : Z -> jsstring -> completion json)
  (base64Image : jsstring) (remaining : nat) :
  forall a maxRetries,
    remaining = Z.to_nat (maxRetries - a + 1) ->
    exists k, (k <= remaining)%nat /\ (0 < remaining -> 0 < k)%nat
      /\ snd (retry_loop analyzeImage remaining a maxRetries base64Image)
         = attempts_from a k.
Proof.
  induction remaining as [|n IH]; intros a M Hrem; simpl.
  - exists 0%nat. repeat split; lia.
  - destruct (analyzeImage a base64Image) as [r|e].
    + exists 1%nat. repeat split; lia.
    + destruct ((status_is e 503 || status_is e 429) && (a <? M)%Z) eqn:T.
      * apply andb_true_iff in T. destruct T as [_ T]. apply Z.ltb_lt in T.
        destruct (IH (a + 1)%Z M) as [k [Hk [Hpos Htr]]]; [lia|].
        destruct (retry_loop analyzeImage n (a + 1) M base64Image) as [res tr].
        simpl in *. subst tr.
        assert (0 < k)%nat by (apply Hpos; lia).
        destruct k as [|k]; [lia|].
        exists (S (S k)). repeat split; try lia.
      * exists 1%nat. repeat split; lia.
Qed.

(** A run that fails throws what its last attempt threw. *)
Lemma loop_failure_is_last_attempt
  (analyzeImage : Z -> jsstring -> completion json)
  (base64Image : jsstring) (remaining : nat) :
  forall a maxRetries e,
    Z.of_nat (S remaining) = (maxRetries - a + 1)%Z ->
    fst (retry_loop analyzeImage (S remaining) a maxRetries base64Image)
    = Throw e ->
    exists n,
      In (Attempt n)
         (snd (retry_loop analyzeImage (S remaining) a maxRetries base64Image))
      /\ (forall m,
            In (Attempt m)
               (snd (retry_loop analyzeImage (S remaining) a maxRetries
                                base64Image)) ->
            (m <= n)%Z)
      /\ analyzeImage n base64Image = Throw e.
Proof.
  induction remaining as [|k IH]; intros a M e Hrem.
  - assert (a = M) by lia. subst a.
    destruct (analyzeImage M base64Image) as [r|err] eqn:E.
    + rewrite (loop_success analyzeImage base64Image 0 M M r E). discriminate.
    + rewrite (loop_last analyzeImage base64Image 0 M err E). cbn [fst snd].
      intros H. inversion H. subst err. exists M.
      split; [left; reflexivity|]. split; [|exact E].
      intros m [Hm|[]]. inversion Hm. lia.
  - destruct (analyzeImage a base64Image) as [r|err] eqn:E.
    + rewrite (loop_success analyzeImage base64Image (S k) a M r E).
      discriminate.
    + destruct (status_is err 503 || status_is err 429) eqn:T.
      * apply transient_test in T.
        rewrite (loop_retry analyzeImage base64Image (S k) a M err E T) by lia.
        cbn [fst snd]. intros H.
        destruct (IH (a + 1)%Z M e ltac:(lia) H) as [n [Hin [Hmax Hn]]].
        exists n. split; [right; right; exact Hin|]. split; [|exact Hn].
        intros m [Hm|[Hm|Hm]].
        -- inversion Hm. subst m.
           pose proof (loop_attempts_ge analyzeImage base64Image (S k)
                         (a + 1)%Z M n Hin). lia.
        -- discriminate Hm.
        -- apply Hmax. exact Hm.
      * assert (Hn : ~ transient err).
        { intros Ht. apply transient_test in Ht. congruence. }
        rewrite (loop_fatal analyzeImage base64Image (S k) a M err E Hn).
        cbn [fst snd]. intros H. inversion H. subst err. exists a.
        split; [left; reflexivity|]. split; [|exact E].
        intros m [Hm|[]]. inversion Hm. lia.
Qed.

(** C1. The wrapper retries only after a failure whose status is 503 or
    429: an attempt after the first follows such a failure of the attempt
    before it; a failure of any other category is rethrown at once and is
    the last attempt of the run; a single bad request (status 400) is the
    only call made. *)
Theorem retry_only_on_transient_failure
  (analyzeImage : Z -> jsstring -> completion json)
  (base64Image : jsstring) (maxRetries : Z) :
  let run := analyzeImageWithRetry analyzeImage base64Image maxRetries in
  (forall n, (1 < n)%Z -> In (Attempt n) (snd run) ->
     exists e, analyzeImage (n - 1)%Z base64Image = Throw e /\ transient e)
  /\ (forall n e, In (Attempt n) (snd run) ->
        analyzeImage n base64Image = Throw e -> ~ transient e ->
        fst run = Throw e /\ forall m, In (Attempt m) (snd run) -> (m <= n)%Z)
  /\ (forall e, (1 <= maxRetries)%Z ->
        analyzeImage 1%Z base64Image = Throw e -> status e = Some 400%Z ->
        run = (Throw e, [Attempt 1%Z])).
Proof.
  intros run. unfold run, analyzeImageWithRetry. repeat split.
  - intros n Hn Hin. eapply loop_retry_cause; eauto.
  - eapply loop_fatal_stops; eauto.
  - eapply loop_fatal_stops; eauto.
  - intros e HM He Hs.
    destruct (Z.to_nat maxRetries) as [|k] eqn:Hk; [lia|].
    apply loop_fatal; auto.
    unfold transient. rewrite Hs. intros [H|H]; discriminate.
Qed.

Lemma retry_only_on_transient_failure_witness :
  analyzeImageWithRetry (fun _ _ => Throw bad_request) (utf16 "/9j/4AAQ") 3
  = (Throw bad_request, [Attempt 1%Z]).
Proof.
  apply (retry_only_on_transient_failure
           (fun _ _ => Throw bad_request) (utf16 "/9j/4AAQ") 3);
    [lia | reflexivity | reflexivity].
Defined.

(** C9, as the code has it.  A run with [maxRetries >= 1] that fails,
    fails with the very value its last attempt threw: the [catch] block
    rethrows what it caught, and nothing wraps it. *)
Theorem failed_run_rethrows_last_error
  (analyzeImage : Z -> jsstring -> completion json)
  (base64Image : jsstring) (maxRetries : Z) (e : JSError) :
  (1 <= maxRetries)%Z ->
  fst (analyzeImageWithRetry analyzeImage base64Image maxRetries) = Throw e ->
  exists n,
    In (Attempt n)
       (snd (analyzeImageWithRetry analyzeImage base64Image maxRetries))
    /\ (forall m,
          In (Attempt m)
             (snd (analyzeImageWithRetry analyzeImage base64Image maxRetries)) ->
          (m <= n)%Z)
    /\ analyzeImage n base64Image = Throw e.
Proof.
  intros HM. unfold analyzeImageWithRetry.
  destruct (Z.to_nat maxRetries) as [|k] eqn:Hk; [lia|].
  apply loop_failure_is_last_attempt. lia.
Qed.

End RetryFacts.

(** ** The inference client *)

Module ClientFacts.

Import Retrying Schedule.

Lemma fresh_Error (msg : jsstring) : fresh (Error msg).
Proof. unfold fresh, Error; simpl. eauto. Qed.

Lemma fresh_TypeError (msg : jsstring) : fresh (TypeError msg).
Proof. unfold fresh, TypeError; simpl. eauto. Qed.

Lemma fresh_not_transient (e : JSError) : fresh e -> ~ transient e.
Proof.
  intros [Hs _] [H|H]; rewrite Hs in H; discriminate.
Qed.

Lemma classify_throws_fresh (eng : Engine) (error : JSError) :
  exists e, classify eng error = Throw e /\ fresh e.
Proof.
  unfold classify. destruct (message error) as [msg|].
  - repeat match goal with
           | |- context [if ?c then _ else _] => destruct c
           end; eexists; split; try reflexivity; apply fresh_Error.
  - eexists; split; [reflexivity|apply fresh_TypeError].
Qed.

Lemma analyzeImage_throws_fresh (eng : Engine) (svc : Service) (call : Z)
  (base64Image : jsstring) (e : JSError) :
  analyzeImage eng svc call base64Image = Throw e -> fresh e.
Proof.
  unfold analyzeImage. destruct (falsy (API_KEY svc)).
  - intros H. inversion H. apply fresh_Error.
  - match goal with
    | |- match ?a with _ => _ end = _ -> _ => destruct a as [r|error]
    end.
    + discriminate.
    + destruct (classify_throws_fresh eng error) as [e' [He' Hf]].
      rewrite He'. intros H. inversion H. subst. exact Hf.
Qed.

(** C6. In the program with retries every failure of [analyzeImage] is
    an error constructed by [analyzeImage] itself, with a message and
    without a [status]; so the test [error.status === 503 ||
    error.status === 429] of the wrapper is false for it, and a run whose
    first analysis fails makes exactly that one attempt and rethrows its
    error. *)
Theorem analyzeImage_failures_are_never_retried (eng : Engine) (svc : Service)
  (base64Image : jsstring) :
  (forall call e,
     analyzeImage eng svc call base64Image = Throw e ->
     status e = None /\ (exists msg, message e = Some msg)
     /\ status_is e 503 || status_is e 429 = false)
  /\ (forall maxRetries e,
        (1 <= maxRetries)%Z ->
        analyzeImage eng svc 1%Z base64Image = Throw e ->
        analyzeImageWithRetry_linked eng svc base64Image maxRetries
        = (Throw e, [Attempt 1%Z])).
Proof.
  split.
  - intros call e H. apply analyzeImage_throws_fresh in H.
    pose proof (fresh_not_transient e H) as Hn.
    destruct H as [Hs [Hm _]]. repeat split; auto.
    apply RetryFacts.not_transient_test. exact Hn.
  - intros M e HM H. unfold analyzeImageWithRetry_linked, analyzeImageWithRetry.
    destruct (Z.to_nat M) as [|k] eqn:Hk; [lia|].
    apply RetryFacts.loop_fatal; [exact H|].
    apply fresh_not_transient. eapply analyzeImage_throws_fresh. exact H.
Qed.

Lemma analyzeImage_failures_are_never_retried_witness :
  analyzeImageWithRetry_linked Samples.v8 Samples.throttled (utf16 "/9j/4AAQ") 3
  = (Throw (Error (utf16
       "API 配额已用完。请稍后再试或检查您的 Gemini API 配额。")),
     [Attempt 1%Z]).
Proof.
  apply (proj2 (analyzeImage_failures_are_never_retried
                  Samples.v8 Samples.throttled (utf16 "/9j/4AAQ"))).
  - lia.
  - reflexivity.
Defined.




(** C5, on the program.  The retry of line 476 looks at [error.status],
    and [analyzeImage] has replaced the rate-limit error of the service
    by an [Error] without one: a request the service answers with status
    429 is the only attempt of the run, which fails with the quota
    message without a pause, whatever the service would answer next.
    The attempts after 2 s and 4 s that the comments of lines 475 and 477
    announce are never made. *)
Theorem rate_limited_request_is_not_retried (eng : Engine) (svc : Service)
  (base64Image : jsstring) (maxRetries : Z) (e : JSError) (msg : jsstring) :
  falsy (API_KEY svc) = false ->
  generateContent svc 1%Z base64Image = Throw e ->
  status e = Some 429%Z -> message e = Some msg ->
  includes msg (utf16 "API_KEY") = false ->
  (1 <= maxRetries)%Z ->
  analyzeImageWithRetry_linked eng svc base64Image maxRetries
  = (Throw (Error (utf16
       "API 配额已用完。请稍后再试或检查您的 Gemini API 配额。")),
     [Attempt 1%Z]).
Proof.
  intros Hk Hg Hs Hm Hi HM.
  unfold analyzeImageWithRetry_linked, analyzeImageWithRetry.
  destruct (Z.to_nat maxRetries) as [|k] eqn:Ek; [lia|].
  apply RetryFacts.loop_fatal.
  - unfold analyzeImage. rewrite Hk, Hg. cbn [bind].
    unfold classify. rewrite Hm, Hi.
    assert (Hq : status_is e 429 = true)
      by (apply RetryFacts.status_is_true; exact Hs).
    rewrite Hq, orb_true_r. reflexivity.
  - apply fresh_not_transient. apply fresh_Error.
Qed.

Lemma rate_limited_request_is_not_retried_witness :
  analyzeImageWithRetry_linked Samples.v8
    (Samples.recovering (JSON_stringify Samples.salad)) (utf16 "/9j/4AAQ") 3
  = (Throw (Error (utf16
       "API 配额已用完。请稍后再试或检查您的 Gemini API 配额。")),
     [Attempt 1%Z]).
Proof.
  apply (rate_limited_request_is_not_retried Samples.v8
           (Samples.recovering (JSON_stringify Samples.salad))
           (utf16 "/9j/4AAQ") 3 rate_limited
           (utf16 "Resource has been exhausted")).
  - reflexivity.
  - reflexivity.
  - reflexivity.
  - reflexivity.
  - vm_compute. reflexivity.
  - lia.
Defined.

Lemma failed_run_rethrows_last_error_witness :
  exists n,
    In (Attempt n)
       (snd (analyzeImageWithRetry (analyzeImage Samples.v8 Samples.throttled)
               (utf16 "/9j/4AAQ") 3))
    /\ (forall m,
          In (Attempt m)
             (snd (analyzeImageWithRetry
                     (analyzeImage Samples.v8 Samples.throttled)
                     (utf16 "/9j/4AAQ") 3)) ->
          (m <= n)%Z)
    /\ analyzeImage Samples.v8 Samples.throttled n (utf16 "/9j/4AAQ")
       = Throw (Error (utf16
           "API 配额已用完。请稍后再试或检查您的 Gemini API 配额。")).
Proof.
  apply (RetryFacts.failed_run_rethrows_last_error
           (analyzeImage Samples.v8 Samples.throttled) (utf16 "/9j/4AAQ") 3
           (Error (utf16
              "API 配额已用完。请稍后再试或检查您的 Gemini API 配额。"))).
  - lia.
  - vm_compute. reflexivity.
Defined.

(** C9, counterexample.  The service answers every request with status
    429, a retriable category: the run of the program fails with the
    [Error] that [analyzeImage] threw at its attempt, the same value, of
    name [Error]; it is not the terminal error of line 488 and it is not
    an error of another kind that holds the one of the attempt. *)
Lemma rate_limited_failure_is_not_wrapped :
  fst (analyzeImageWithRetry_linked Samples.v8 Samples.throttled
         (utf16 "/9j/4AAQ") 3)
  = analyzeImage Samples.v8 Samples.throttled 1%Z (utf16 "/9j/4AAQ")
  /\ analyzeImage Samples.v8 Samples.throttled 1%Z (utf16 "/9j/4AAQ")
     = Throw (Error (utf16
         "API 配额已用完。请稍后再试或检查您的 Gemini API 配额。"))
  /\ name (Error (utf16
       "API 配额已用完。请稍后再试或检查您的 Gemini API 配额。"))
     = utf16 "Error"
  /\ utf16 "Error" <> utf16 "RetriesExhaustedError"
  /\ fst (analyzeImageWithRetry_linked Samples.v8 Samples.throttled
            (utf16 "/9j/4AAQ") 3)
     <> Throw (Error (utf16 "Failed after multiple retries")).
Proof.
  split; [vm_compute; reflexivity|].
  split; [vm_compute; reflexivity|].
  split; [reflexivity|].
  split; [vm_compute; discriminate|].
  vm_compute. discriminate.
Qed.

End ClientFacts.

(** ** The image codec helper *)

Module CodecFacts.

Import Retrying.

Lemma compressImage_returns (b : Browser) (base64 : jsstring)
  (maxWidth : Z) (quality : Q) :
  exists out, compressImage b base64 maxWidth quality = Return out.
Proof.
  unfold compressImage.
  destruct (decode b base64) as [img|]; [|eauto].
  destruct (negb (context2d b)); eauto.
Qed.

Lemma compressImage_undecodable (b : Browser) (base64 : jsstring)
  (maxWidth : Z) (quality : Q) :
  decode b base64 = None ->
  compressImage b base64 maxWidth quality = Return base64.
Proof. intros H. unfold compressImage. rewrite H. reflexivity. Qed.

(** C4. [compressImage] settles with a value on every path, and when the
    browser cannot decode the input that value is the input itself. *)
Theorem compressImage_never_raises (b : Browser) (base64 : jsstring)
  (maxWidth : Z) (quality : Q) :
  (exists out, compressImage b base64 maxWidth quality = Return out)
  /\ (decode b base64 = None ->
      compressImage b base64 maxWidth quality = Return base64).
Proof.
  split.
  - apply compressImage_returns.
  - apply compressImage_undecodable.
Qed.

Lemma compressImage_never_raises_witness :
  compressImage (Samples.undecodable (fun _ => 0%Z)) (utf16 "not-a-jpeg")
                200 (7 # 10)
  = Return (utf16 "not-a-jpeg").
Proof.
  apply (proj2 (compressImage_never_raises
                  (Samples.undecodable (fun _ => 0%Z)) (utf16 "not-a-jpeg")
                  200 (7 # 10))).
  reflexivity.
Defined.

(** *** The scale factor *)








(** The products of lines 841-842 are rounded before the canvas takes
    their integral part: the longer side of a 3088 by 2316 photograph
    comes out one below the bound, and a 199 by 100 picture keeps its
    size at 200. *)
Lemma rounded_products :
  canvas_width 200 (mkPicture 3088 2316) = 199%Z
  /\ canvas_width 800 (mkPicture 3088 2316) = 799%Z
  /\ canvas_width 200 (mkPicture 199 100) = 199%Z
  /\ canvas_height 200 (mkPicture 199 100) = 100%Z.
Proof.
  split; [vm_compute; reflexivity|].
  split; [vm_compute; reflexivity|].
  split; vm_compute; reflexivity.
Qed.




End CodecFacts.

(** ** [JSON.parse] after [JSON.stringify] *)

Module JSONFacts.

(** Induction on a value with the elements of an array and the members
    of an object as premises. *)
Section Induction.

Variable P : json -> Prop.
Hypothesis HNull : P JNull.
Hypothesis HBool : forall b, P (JBool b).
Hypothesis HNum : forall n, P (JNum n).
Hypothesis HStr : forall s, P (JStr s).
Hypothesis HArr : forall l, Forall P l -> P (JArr l).
Hypothesis HObj : forall m, Forall (fun kv => P (snd kv)) m -> P (JObj m).

Fixpoint json_induction (v : json) : P v :=
  match v with
  | JNull => HNull
  | JBool b => HBool b
  | JNum n => HNum n
  | JStr s => HStr s
  | JArr l =>
    HArr l ((fix all (l : list json) : Forall P l :=
               match l with
               | [] => Forall_nil P
               | x :: r => Forall_cons x (json_induction x) (all r)
               end) l)
  | JObj m =>
    HObj m ((fix all (m : list (jsstring * json))
               : Forall (fun kv => P (snd kv)) m :=
               match m with
               | [] => Forall_nil _
               | kv :: r =>
                 Forall_cons kv (json_induction (snd kv)) (all r)
               end) m)
  end.

End Induction.

(** *** Characters *)

Lemma hex_val_hex_digit (n : N) :
  (n <? 16)%N = true -> hex_val (hex_digit n) = Some n.
Proof.
  destruct n as [|p]; [reflexivity|]. intros H.
  do 5 (try (destruct p as [p|p|]; try reflexivity; try discriminate)).
Qed.

Lemma nibbles (c : N) :
  (c < 65536)%N ->
  ((c / 4096 mod 16) * 4096 + (c / 256 mod 16) * 256
   + (c / 16 mod 16) * 16 + c mod 16 = c)%N.
Proof.
  intros H.
  pose proof (N.div_mod c 16 ltac:(lia)) as E1.
  pose proof (N.div_mod (c / 16) 16 ltac:(lia)) as E2.
  pose proof (N.div_mod (c / 16 / 16) 16 ltac:(lia)) as E3.
  rewrite !N.Div0.div_div in E2, E3. simpl (16 * 16)%N in *.
  rewrite !N.Div0.div_div in E3. simpl (256 * 16)%N in *.
  assert (c / 4096 < 16)%N by (apply N.Div0.div_lt_upper_bound; lia).
  rewrite (N.mod_small (c / 4096) 16) by assumption.
  lia.
Qed.

Lemma hex4_uescape (c : N) :
  (c < 65536)%N ->
  hex4 (hex_digit (c / 4096 mod 16)) (hex_digit (c / 256 mod 16))
       (hex_digit (c / 16 mod 16)) (hex_digit (c mod 16)) = Some c.
Proof.
  intros H. unfold hex4.
  rewrite !hex_val_hex_digit
    by (apply N.ltb_lt, N.mod_lt; discriminate).
  f_equal. apply nibbles. exact H.
Qed.

(** *** String literals *)

Lemma parse_chars_literal (c : N) (tail : jsstring) :
  (32 <= c)%N -> c <> 34%N -> c <> 92%N ->
  parse_chars (c :: tail) = cons_chars c (parse_chars tail).
Proof.
  intros H32 H34 H92. simpl.
  destruct (N.eqb_spec c 34); [contradiction|].
  destruct (N.eqb_spec c 92); [contradiction|].
  destruct (N.ltb_spec c 32); [lia|]. reflexivity.
Qed.

Lemma parse_chars_uescape (c : N) (tail : jsstring) :
  (c < 65536)%N ->
  parse_chars (uescape c ++ tail) = cons_chars c (parse_chars tail).
Proof.
  intros H. unfold uescape.
  change (parse_chars
            ([92; 117; hex_digit (c / 4096 mod 16); hex_digit (c / 256 mod 16);
              hex_digit (c / 16 mod 16); hex_digit (c mod 16)]%N ++ tail))
    with (match hex4 (hex_digit (c / 4096 mod 16)) (hex_digit (c / 256 mod 16))
                     (hex_digit (c / 16 mod 16)) (hex_digit (c mod 16)) with
          | Some u => cons_chars u (parse_chars tail)
          | None => None
          end).
  rewrite hex4_uescape by exact H. reflexivity.
Qed.

Lemma surrogate_bound (c : N) :
  is_high_surrogate c || is_low_surrogate c = true -> (55296 <= c < 65536)%N.
Proof.
  unfold is_high_surrogate, is_low_surrogate.
  rewrite orb_true_iff, !andb_true_iff, !N.leb_le. lia.
Qed.

Lemma parse_chars_quote_unit (c : N) (tail : jsstring) :
  parse_chars (quote_unit c ++ tail) = cons_chars c (parse_chars tail).
Proof.
  unfold quote_unit.
  destruct (N.eqb_spec c 8); [subst; reflexivity|].
  destruct (N.eqb_spec c 9); [subst; reflexivity|].
  destruct (N.eqb_spec c 10); [subst; reflexivity|].
  destruct (N.eqb_spec c 12); [subst; reflexivity|].
  destruct (N.eqb_spec c 13); [subst; reflexivity|].
  destruct (N.eqb_spec c 34); [subst; reflexivity|].
  destruct (N.eqb_spec c 92); [subst; reflexivity|].
  destruct (N.ltb_spec c 32).
  - apply parse_chars_uescape. lia.
  - destruct (is_high_surrogate c || is_low_surrogate c) eqn:HS.
    + apply parse_chars_uescape. apply surrogate_bound in HS. lia.
    + apply parse_chars_literal; assumption.
Qed.

Lemma parse_chars_surrogate (c : N) (tail : jsstring) :
  is_high_surrogate c || is_low_surrogate c = true ->
  parse_chars (c :: tail) = cons_chars c (parse_chars tail).
Proof.
  intros HS. apply surrogate_bound in HS. apply parse_chars_literal; lia.
Qed.

Lemma parse_chars_quote_chars_bounded (n : nat) :
  forall s rest, (length s <= n)%nat ->
    parse_chars (quote_chars s ++ 34%N :: rest) = Some (s, rest).
Proof.
  induction n as [|n IH]; intros s rest Hlen.
  - destruct s; [reflexivity|simpl in Hlen; lia].
  - destruct s as [|c r]; [reflexivity|]. simpl in Hlen.
    cbn [quote_chars].
    destruct (is_high_surrogate c) eqn:Hc.
    + destruct r as [|d r'].
      * rewrite parse_chars_quote_unit. reflexivity.
      * destruct (is_low_surrogate d) eqn:Hd.
        -- simpl in Hlen. cbn [app].
           rewrite parse_chars_surrogate by (rewrite Hc; reflexivity).
           rewrite parse_chars_surrogate by (rewrite Hd; apply orb_true_r).
           rewrite IH by lia. reflexivity.
        -- rewrite <- app_assoc, parse_chars_quote_unit.
           rewrite IH by (simpl in *; lia). reflexivity.
    + rewrite <- app_assoc, parse_chars_quote_unit.
      rewrite IH by lia. reflexivity.
Qed.

Lemma parse_chars_quote_chars (s rest : jsstring) :
  parse_chars (quote_chars s ++ 34%N :: rest) = Some (s, rest).
Proof. apply (parse_chars_quote_chars_bounded (length s)). lia. Qed.

(** *** Integers *)

Lemma uint_codes_digits (u : Decimal.uint) :
  Forall (fun c => is_digit c = true) (uint_codes u).
Proof. induction u; simpl; constructor; auto. Qed.

Lemma codes_uint_codes (u : Decimal.uint) : codes_uint (uint_codes u) = u.
Proof. induction u; simpl; congruence. Qed.

Lemma span_digits_app (ds rest : jsstring) :
  Forall (fun c => is_digit c = true) ds -> not_digit_head rest ->
  span_digits (ds ++ rest) = (ds, rest).
Proof.
  intros Hds Hrest. induction Hds as [|c ds Hc _ IH]; cbn [span_digits app].
  - destruct rest as [|c r]; [reflexivity|]. cbn [span_digits].
    unfold not_digit_head in Hrest. rewrite Hrest. reflexivity.
  - rewrite Hc, IH. reflexivity.
Qed.

Lemma to_uint_no_leading_zero (p : positive) (u : Decimal.uint) :
  Pos.to_uint p <> Decimal.D0 u.
Proof.
  intros E.
  pose proof (DecimalPos.Unsigned.to_of (Pos.to_uint p)) as H.
  rewrite DecimalPos.Unsigned.of_to in H. simpl in H.
  rewrite E in H. rewrite DecimalFacts.unorm_D0 in H.
  assert (Hcase : u = Decimal.Nil \/ u <> Decimal.Nil)
    by (destruct u; [left; reflexivity | right; discriminate ..]).
  destruct Hcase as [->|Hn].
  - apply (DecimalPos.Unsigned.to_uint_nonzero p). exact E.
  - pose proof (DecimalFacts.nb_digits_unorm u Hn) as Hd.
    rewrite <- H in Hd. simpl in Hd. lia.
Qed.

(** The decimal text of a positive number: a digit other than [0], then
    digits. *)
Lemma to_uint_codes (p : positive) :
  exists d ds,
    uint_codes (Pos.to_uint p) = d :: ds
    /\ is_digit d = true /\ d <> 48%N.
Proof.
  pose proof (DecimalPos.Unsigned.to_uint_nonnil p) as Hnil.
  pose proof (to_uint_no_leading_zero p) as Hz.
  destruct (Pos.to_uint p) as [| u | u | u | u | u | u | u | u | u | u];
    first [ exfalso; apply Hnil; reflexivity
          | exfalso; apply (Hz u); reflexivity
          | eexists; eexists; split;
            [reflexivity | split; [reflexivity | discriminate]] ].
Qed.

Lemma parse_fraction_none (rest : jsstring) :
  terminated rest -> parse_fraction rest = Some ([], rest).
Proof.
  destruct rest as [|c r]; [reflexivity|]. simpl.
  intros [_ [H _]]. destruct (N.eqb_spec c 46); [contradiction|reflexivity].
Qed.

Lemma parse_exponent_none (rest : jsstring) :
  terminated rest -> parse_exponent rest = Some ([], rest).
Proof.
  destruct rest as [|c r]; [reflexivity|]. simpl.
  intros [_ [_ [H1 H2]]].
  destruct (N.eqb_spec c 101); [contradiction|].
  destruct (N.eqb_spec c 69); [contradiction|reflexivity].
Qed.

Lemma terminated_not_digit (rest : jsstring) :
  terminated rest -> not_digit_head rest.
Proof. destruct rest; simpl; tauto. Qed.

(** The digits of a number that is not negative, read back. *)
Lemma parse_number_digits (u : Decimal.uint) (d : N) (ds rest : jsstring) :
  uint_codes u = d :: ds -> is_digit d = true ->
  (d = 48%N -> ds = []) ->
  terminated rest ->
  parse_number (uint_codes u ++ rest)
  = Some (Int (Z.of_int (Decimal.Pos u)), rest).
Proof.
  intros Hu Hd Hz Hrest. unfold parse_number.
  rewrite Hu. cbn [app].
  assert (Hneg : (d =? 45)%N = false).
  { apply N.eqb_neq. intros ->. discriminate. }
  rewrite Hneg.
  change (d :: ds ++ rest) with ((d :: ds) ++ rest).
  rewrite span_digits_app.
  - destruct (N.eqb_spec d 48) as [E|E].
    + rewrite (Hz E). cbn [negb andb].
      rewrite parse_fraction_none, parse_exponent_none by assumption.
      rewrite <- (Hz E), <- Hu, codes_uint_codes. reflexivity.
    + cbn [andb].
      rewrite parse_fraction_none, parse_exponent_none by assumption.
      rewrite <- Hu, codes_uint_codes. reflexivity.
  - rewrite <- Hu. apply uint_codes_digits.
  - apply terminated_not_digit. assumption.
Qed.

Lemma parse_number_negative (p : positive) (rest : jsstring) :
  terminated rest ->
  parse_number (45%N :: uint_codes (Pos.to_uint p) ++ rest)
  = Some (Int (Z.neg p), rest).
Proof.
  intros Hrest.
  destruct (to_uint_codes p) as [d [ds [Hu [Hd Hz]]]].
  unfold parse_number. cbn [N.eqb Pos.eqb].
  rewrite Hu.
  change ((d :: ds) ++ rest) with ((d :: ds) ++ rest).
  rewrite span_digits_app.
  - destruct (N.eqb_spec d 48) as [E|E]; [contradiction|]. cbn [andb].
    rewrite parse_fraction_none, parse_exponent_none by assumption.
    rewrite <- Hu, codes_uint_codes.
    change (Z.of_int (Decimal.Pos (Pos.to_uint p)))
      with (Z.of_int (Z.to_int (Z.pos p))).
    rewrite DecimalZ.of_to. reflexivity.
  - rewrite <- Hu. apply uint_codes_digits.
  - apply terminated_not_digit. assumption.
Qed.

Lemma parse_number_Z_toString (z : Z) (rest : jsstring) :
  terminated rest ->
  parse_number (Z_toString z ++ rest) = Some (Int z, rest).
Proof.
  intros Hrest. unfold Z_toString. destruct z as [|p|p]; cbn [Z.to_int].
  - apply (parse_number_digits Decimal.zero 48%N [] rest);
      auto; reflexivity.
  - destruct (to_uint_codes p) as [d [ds [Hu [Hd Hz]]]].
    rewrite (parse_number_digits (Pos.to_uint p) d ds rest Hu Hd)
      by (assumption || (intros; contradiction)).
    change (Z.of_int (Decimal.Pos (Pos.to_uint p)))
      with (Z.of_int (Z.to_int (Z.pos p))).
    rewrite DecimalZ.of_to. reflexivity.
  - apply parse_number_negative. assumption.
Qed.

(** The first character of the text of an integer. *)
Lemma Z_toString_head (z : Z) :
  exists c t, Z_toString z = c :: t
              /\ (c = 45%N \/ is_digit c = true).
Proof.
  unfold Z_toString. destruct z as [|p|p]; cbn [Z.to_int].
  - exists 48%N, []. split; [reflexivity|right; reflexivity].
  - destruct (to_uint_codes p) as [d [ds [Hu [Hd _]]]].
    exists d, ds. split; [exact Hu|right; exact Hd].
  - eexists; eexists. split; [reflexivity|left; reflexivity].
Qed.

(** *** Values *)

Lemma skip_ws_head (c : N) (r : jsstring) :
  is_ws c = false -> skip_ws (c :: r) = c :: r.
Proof. intros H. cbn [skip_ws]. rewrite H. reflexivity. Qed.

Lemma strip_prefix_app (p rest : jsstring) :
  strip_prefix p (p ++ rest) = Some rest.
Proof.
  induction p as [|a p IH]; [destruct rest; reflexivity|].
  cbn [strip_prefix app]. rewrite N.eqb_refl. exact IH.
Qed.

Lemma number_head (c : N) :
  c = 45%N \/ is_digit c = true ->
  opens_value c
  /\ (c =? 34)%N = false /\ (c =? 91)%N = false /\ (c =? 123)%N = false
  /\ (c =? 110)%N = false /\ (c =? 116)%N = false /\ (c =? 102)%N = false.
Proof.
  intros [->|H].
  - repeat split; discriminate.
  - unfold is_digit in H. apply andb_true_iff in H. destruct H as [H1 H2].
    apply N.leb_le in H1, H2. unfold opens_value, is_ws.
    repeat split; try lia; try (apply N.eqb_neq; lia).
    rewrite !orb_false_iff. repeat split; apply N.eqb_neq; lia.
Qed.

Lemma parse_value_number (fuel : nat) (c : N) (r : jsstring) :
  c = 45%N \/ is_digit c = true ->
  parse_value (S fuel) (c :: r)
  = match parse_number (c :: r) with
    | Some (n, r') => Some (JNum n, r')
    | None => None
    end.
Proof.
  intros H. destruct (number_head c H) as [[Hws _] [H1 [H2 [H3 [H4 [H5 H6]]]]]].
  cbn [parse_value]. rewrite (skip_ws_head c r Hws).
  rewrite H1, H2, H3, H4, H5, H6. reflexivity.
Qed.

Lemma stringify_head (v : json) :
  plain v = true ->
  exists c t, stringify v = c :: t /\ opens_value c.
Proof.
  destruct v as [ | [ | ] | [z | l] | s | l | m ]; intros Hp;
    try discriminate;
    try (eexists; eexists; split;
         [reflexivity|repeat split; discriminate]).
  destruct (Z_toString_head z) as [c [t [E H]]].
  exists c, t. split; [exact E|]. apply number_head. exact H.
Qed.

Lemma terminated_separator (c : N) (r : jsstring) :
  c = 44%N \/ c = 93%N \/ c = 125%N -> terminated (c :: r).
Proof. intros [-> | [-> | ->]]; repeat split; discriminate. Qed.

Lemma parse_elements_join (l : list json) :
  Forall reads_back l -> forallb plain l = true -> l <> [] ->
  forall fuel rest,
    (list_sum (map (fun x => S (need x)) l) <= fuel)%nat ->
    parse_elements fuel (join_elements stringify l ++ 93%N :: rest)
    = Some (l, rest).
Proof.
  intros HF. induction HF as [|x r Hx _ IH]; intros Hp Hne fuel rest Hfuel.
  - contradiction.
  - cbn [forallb] in Hp. apply andb_true_iff in Hp. destruct Hp as [Hpx Hpr].
    cbn [map list_sum] in Hfuel.
    destruct fuel as [|fuel]; [simpl in Hfuel; lia|].
    cbn [parse_elements join_elements].
    fold (join_elements stringify).
    destruct r as [|y r].
    + rewrite app_nil_r.
      rewrite (Hx Hpx fuel (93%N :: rest)); [|simpl in Hfuel; lia|].
      * reflexivity.
      * apply terminated_separator; auto.
    + rewrite <- app_assoc. cbn [app].
      rewrite (Hx Hpx fuel); [|simpl in Hfuel; lia|].
      * rewrite skip_ws_head by reflexivity. cbn [N.eqb Pos.eqb].
        rewrite IH; [reflexivity|exact Hpr|discriminate|].
        simpl in Hfuel |- *. lia.
      * apply terminated_separator; auto.
Qed.

Lemma parse_members_join (m : list (jsstring * json)) :
  Forall (fun kv => reads_back (snd kv)) m ->
  forallb (fun kv => plain (snd kv)) m = true -> m <> [] ->
  forall fuel rest,
    (list_sum (map (fun kv => S (need (snd kv))) m) <= fuel)%nat ->
    parse_members fuel (join_members stringify m ++ 125%N :: rest)
    = Some (m, rest).
Proof.
  intros HF. induction HF as [|[k x] r Hx _ IH]; intros Hp Hne fuel rest Hfuel.
  - contradiction.
  - cbn [forallb snd] in Hp. apply andb_true_iff in Hp.
    destruct Hp as [Hpx Hpr]. cbn [snd] in Hx.
    cbn [map list_sum snd] in Hfuel.
    destruct fuel as [|fuel]; [simpl in Hfuel; lia|].
    cbn [parse_members join_members].
    fold (join_members stringify).
    unfold quote. rewrite <- !app_assoc. cbn [app].
    rewrite skip_ws_head by reflexivity. cbn [N.eqb Pos.eqb negb].
    rewrite <- app_assoc. cbn [app].
    rewrite parse_chars_quote_chars.
    rewrite skip_ws_head by reflexivity. cbn [N.eqb Pos.eqb negb].
    destruct r as [|y r].
    + rewrite app_nil_r.
      rewrite (Hx Hpx fuel (125%N :: rest)); [|simpl in Hfuel; lia|].
      * reflexivity.
      * apply terminated_separator; auto.
    + rewrite <- app_assoc. cbn [app].
      rewrite (Hx Hpx fuel); [|simpl in Hfuel; lia|].
      * rewrite skip_ws_head by reflexivity. cbn [N.eqb Pos.eqb].
        rewrite IH; [reflexivity|exact Hpr|discriminate|].
        simpl in Hfuel |- *. lia.
      * apply terminated_separator; auto.
Qed.

Lemma fuel_positive (v : json) (fuel : nat) :
  (need v <= fuel)%nat -> exists fuel', fuel = S fuel'.
Proof.
  destruct fuel as [|f]; [|eauto].
  destruct v; simpl; lia.
Qed.

Lemma reads_back_all (v : json) : reads_back v.
Proof.
  induction v using json_induction; intros Hp fuel rest Hfuel Hrest;
    destruct (fuel_positive _ _ Hfuel) as [f ->].
  - cbn [stringify]. unfold parse_value, parse_literal.
    change (skip_ws (utf16 "null" ++ rest)) with (utf16 "null" ++ rest).
    change (utf16 "null" ++ rest)
      with (110%N :: [117; 108; 108]%N ++ rest) at 1.
    cbn [N.eqb Pos.eqb].
    change (110%N :: [117; 108; 108]%N ++ rest) with (utf16 "null" ++ rest).
    rewrite strip_prefix_app. reflexivity.
  - destruct b; cbn [stringify]; unfold parse_value, parse_literal.
    + change (skip_ws (utf16 "true" ++ rest)) with (utf16 "true" ++ rest).
      change (utf16 "true" ++ rest)
        with (116%N :: [114; 117; 101]%N ++ rest) at 1.
      cbn [N.eqb Pos.eqb].
      change (116%N :: [114; 117; 101]%N ++ rest) with (utf16 "true" ++ rest).
      rewrite strip_prefix_app. reflexivity.
    + change (skip_ws (utf16 "false" ++ rest)) with (utf16 "false" ++ rest).
      change (utf16 "false" ++ rest)
        with (102%N :: [97; 108; 115; 101]%N ++ rest) at 1.
      cbn [N.eqb Pos.eqb].
      change (102%N :: [97; 108; 115; 101]%N ++ rest)
        with (utf16 "false" ++ rest).
      rewrite strip_prefix_app. reflexivity.
  - destruct n as [z|l]; [|discriminate]. cbn [stringify].
    destruct (Z_toString_head z) as [c [t [E H]]].
    pose proof (parse_number_Z_toString z rest Hrest) as Hn.
    rewrite E in Hn |- *. cbn [app] in Hn |- *.
    rewrite parse_value_number by exact H.
    rewrite Hn. reflexivity.
  - cbn [stringify]. unfold quote. cbn [app parse_value].
    rewrite skip_ws_head by reflexivity. cbn [N.eqb Pos.eqb].
    rewrite <- app_assoc. cbn [app].
    rewrite parse_chars_quote_chars. reflexivity.
  - cbn [stringify plain need] in *. cbn [app parse_value].
    rewrite skip_ws_head by reflexivity. cbn [N.eqb Pos.eqb].
    rewrite <- app_assoc. cbn [app].
    destruct l as [|x r].
    + reflexivity.
    + assert (Hx : plain x = true)
        by (cbn [forallb] in Hp; apply andb_true_iff in Hp; tauto).
      destruct (stringify_head x Hx) as [c [t [E [Hws [H93 _]]]]].
      pose proof (parse_elements_join (x :: r) H Hp ltac:(discriminate)
                    f rest ltac:(lia)) as Hl.
      revert Hl. cbn [join_elements]. rewrite E. cbn [app].
      intros Hl. rewrite skip_ws_head by exact Hws.
      destruct (N.eqb_spec c 93); [contradiction|].
      rewrite Hl. reflexivity.
  - cbn [stringify plain need] in *. cbn [app parse_value].
    rewrite skip_ws_head by reflexivity. cbn [N.eqb Pos.eqb].
    rewrite <- app_assoc. cbn [app].
    destruct m as [|[k x] r].
    + reflexivity.
    + pose proof (parse_members_join ((k, x) :: r) H Hp ltac:(discriminate)
                    f rest ltac:(lia)) as Hl.
      revert Hl. cbn [join_members]. unfold quote. cbn [app].
      intros Hl. rewrite skip_ws_head by reflexivity.
      cbn [N.eqb Pos.eqb].
      rewrite Hl. reflexivity.
Qed.

(** The fuel [parse] supplies covers every text [stringify] writes. *)
Lemma need_bound (v : json) :
  (need v <= 2 * length (stringify v) + 1)%nat.
Proof.
  induction v using json_induction; try (simpl; lia).
  - cbn [need stringify]. rewrite length_cons, length_app. cbn [length].
    assert (list_sum (map (fun x => S (need x)) l)
            <= 2 * length (join_elements stringify l) + 2)%nat; [|lia].
    induction H as [|x r Hx _ IH]; [simpl; lia|].
    cbn [join_elements]. fold (join_elements stringify).
    rewrite length_app. destruct r as [|y r].
    + simpl in *. lia.
    + rewrite length_cons. cbn [list_sum fold_right map] in *. lia.
  - cbn [need stringify]. rewrite length_cons, length_app. cbn [length].
    assert (list_sum (map (fun kv => S (need (snd kv))) m)
            <= 2 * length (join_members stringify m) + 2)%nat; [|lia].
    induction H as [|[k x] r Hx _ IH]; [simpl; lia|].
    cbn [join_members snd] in *.
    fold (join_members stringify).
    rewrite !length_app, length_cons, length_app. destruct r as [|y r].
    + simpl in *. lia.
    + rewrite length_cons. cbn [list_sum fold_right map snd] in *. lia.
Qed.

(** Round trip: [JSON.parse(JSON.stringify(v))] is [v] for every value
    without a fractional literal. *)
Theorem parse_stringify (v : json) :
  plain v = true -> parse (stringify v) = Some v.
Proof.
  intros Hp. unfold parse.
  pose proof (reads_back_all v Hp (2 * length (stringify v) + 2) []) as H.
  rewrite app_nil_r in H. rewrite H.
  - reflexivity.
  - pose proof (need_bound v). lia.
  - exact I.
Qed.

Lemma JSON_parse_stringify (eng : Engine) (v : json) :
  plain v = true -> JSON_parse eng (JSON_stringify v) = Return v.
Proof.
  intros Hp. unfold JSON_parse, JSON_stringify.
  rewrite parse_stringify by exact Hp. reflexivity.
Qed.

(** *** The fuel of [parse] *)

Lemma skip_ws_length (s : jsstring) : (length (skip_ws s) <= length s)%nat.
Proof.
  induction s as [|c r IH]; cbn [skip_ws]; [lia|].
  destruct (is_ws c); cbn [length] in *; lia.
Qed.

Lemma cons_chars_some (c : N) (p : option (jsstring * jsstring))
  (x r : jsstring) :
  cons_chars c p = Some (x, r) -> exists x', p = Some (x', r).
Proof.
  destruct p as [[x' r']|]; cbn; [|discriminate].
  intros H. inversion H. eauto.
Qed.

Lemma parse_chars_length_bounded (n : nat) :
  forall s x r, (length s <= n)%nat ->
    parse_chars s = Some (x, r) -> (length r < length s)%nat.
Proof.
  induction n as [|n IH]; intros s x r Hn H.
  - destruct s; [discriminate|cbn [length] in Hn; lia].
  - destruct s as [|c s]; [discriminate|]. cbn [length] in Hn.
    cbn [parse_chars] in H.
    destruct (c =? 34)%N.
    { inversion H. subst. cbn [length]. lia. }
    destruct (c =? 92)%N.
    + destruct s as [|e s1]; [discriminate|].
      destruct (e =? 117)%N.
      * destruct s1 as [|h1 [|h2 [|h3 [|h4 s2]]]]; try discriminate.
        destruct (hex4 h1 h2 h3 h4); [|discriminate].
        apply cons_chars_some in H. destruct H as [x' H].
        apply IH in H; cbn [length] in *; lia.
      * destruct (unescape e); [|discriminate].
        apply cons_chars_some in H. destruct H as [x' H].
        apply IH in H; cbn [length] in *; lia.
    + destruct (c <? 32)%N; [discriminate|].
      apply cons_chars_some in H. destruct H as [x' H].
      apply IH in H; cbn [length] in *; lia.
Qed.

Lemma parse_chars_length (s x r : jsstring) :
  parse_chars s = Some (x, r) -> (length r < length s)%nat.
Proof. apply (parse_chars_length_bounded (length s)). lia. Qed.

Lemma span_digits_length (s : jsstring) :
  forall d r, span_digits s = (d, r) ->
    (length d + length r = length s)%nat.
Proof.
  induction s as [|c s IH]; intros d r H; cbn [span_digits] in H.
  - inversion H. reflexivity.
  - destruct (is_digit c).
    + destruct (span_digits s) as [d' r'] eqn:E. inversion H. subst.
      specialize (IH d' r eq_refl). cbn [length]. lia.
    + inversion H. subst. reflexivity.
Qed.

Lemma parse_fraction_length (s f r : jsstring) :
  parse_fraction s = Some (f, r) -> (length r <= length s)%nat.
Proof.
  unfold parse_fraction. destruct s as [|c s]; intros H.
  - inversion H. lia.
  - destruct (c =? 46)%N.
    + destruct (span_digits s) as [d r'] eqn:E.
      apply span_digits_length in E.
      destruct d; [discriminate|]. inversion H. subst.
      cbn [length] in *. lia.
    + inversion H. lia.
Qed.

Lemma parse_exponent_length (s e r : jsstring) :
  parse_exponent s = Some (e, r) -> (length r <= length s)%nat.
Proof.
  unfold parse_exponent. destruct s as [|c s]; intros H.
  - inversion H. lia.
  - destruct ((c =? 101)%N || (c =? 69)%N).
    + destruct s as [|g s0].
      * cbn in H. discriminate.
      * destruct ((g =? 43)%N || (g =? 45)%N).
        -- destruct (span_digits s0) as [d r'] eqn:E.
           apply span_digits_length in E.
           destruct d; [discriminate|]. inversion H. subst.
           cbn [length] in *. lia.
        -- destruct (span_digits (g :: s0)) as [d r'] eqn:E.
           apply span_digits_length in E.
           destruct d; [discriminate|]. inversion H. subst.
           cbn [length] in *. lia.
    + inversion H. lia.
Qed.

Lemma parse_number_length (s : jsstring) (n : number) (r : jsstring) :
  parse_number s = Some (n, r) -> (length r < length s)%nat.
Proof.
  unfold parse_number. intros H.
  assert (Hs1 : exists neg s1,
             match s with
             | c :: r => if (c =? 45)%N then (true, r) else (false, s)
             | [] => (false, s)
             end = (neg, s1) /\ (length s1 <= length s)%nat).
  { destruct s as [|c s']; [eexists; eexists; split; [reflexivity|lia]|].
    destruct (c =? 45)%N; eexists; eexists; split;
      try reflexivity; cbn [length]; lia. }
  destruct Hs1 as [neg [s1 [E Hlen]]]. rewrite E in H.
  destruct (span_digits s1) as [ds s2] eqn:Ed.
  apply span_digits_length in Ed.
  destruct ds as [|d ds]; [discriminate|].
  destruct ((d =? 48)%N && negb match ds with [] => true | _ :: _ => false end);
    [discriminate|].
  destruct (parse_fraction s2) as [[f s3]|] eqn:Ef; [|discriminate].
  apply parse_fraction_length in Ef.
  destruct (parse_exponent s3) as [[e s4]|] eqn:Ee; [|discriminate].
  apply parse_exponent_length in Ee.
  assert (r = s4).
  { destruct f; destruct e; inversion H; reflexivity. }
  subst. cbn [length] in *. lia.
Qed.

Lemma strip_prefix_length (p : jsstring) :
  forall s r, strip_prefix p s = Some r ->
    (length p + length r = length s)%nat.
Proof.
  induction p as [|a p IH]; intros s r H; cbn [strip_prefix] in H.
  - destruct s; inversion H; reflexivity.
  - destruct s as [|b s]; [discriminate|].
    destruct (a =? b)%N; [|discriminate].
    apply IH in H. cbn [length]. lia.
Qed.

Lemma parse_literal_length (p : jsstring) (v w : json) (s r : jsstring) :
  p <> [] -> parse_literal p v s = Some (w, r) ->
  (length r < length s)%nat.
Proof.
  unfold parse_literal. intros Hp H.
  destruct (strip_prefix p s) as [r'|] eqn:E; [|discriminate].
  inversion H. subst. apply strip_prefix_length in E.
  destruct p; [contradiction|]. cbn [length] in E. lia.
Qed.

(** Every successful call consumes at least one character. *)
Lemma parse_consumes (fuel : nat) :
  (forall s v r, parse_value fuel s = Some (v, r) ->
     (length r < length s)%nat)
  /\ (forall s l r, parse_elements fuel s = Some (l, r) ->
        (length r < length s)%nat)
  /\ (forall s m r, parse_members fuel s = Some (m, r) ->
        (length r < length s)%nat).
Proof.
  induction fuel as [|f [IHv [IHe IHm]]];
    [repeat split; intros; discriminate|].
  repeat split.
  - intros s v r H. cbn [parse_value] in H.
    pose proof (skip_ws_length s) as Hs.
    destruct (skip_ws s) as [|c t]; [discriminate|]. cbn [length] in Hs.
    destruct (c =? 34)%N.
    { destruct (parse_chars t) as [[x r']|] eqn:E; [|discriminate].
      apply parse_chars_length in E. inversion H. subst. lia. }
    destruct (c =? 91)%N.
    { pose proof (skip_ws_length t) as Ht.
      destruct (skip_ws t) as [|d t']; [discriminate|]. cbn [length] in Ht.
      destruct (d =? 93)%N; [inversion H; subst; lia|].
      destruct (parse_elements f (d :: t')) as [[l r']|] eqn:E; [|discriminate].
      apply IHe in E. inversion H. subst. cbn [length] in E. lia. }
    destruct (c =? 123)%N.
    { pose proof (skip_ws_length t) as Ht.
      destruct (skip_ws t) as [|d t']; [discriminate|]. cbn [length] in Ht.
      destruct (d =? 125)%N; [inversion H; subst; lia|].
      destruct (parse_members f (d :: t')) as [[l r']|] eqn:E; [|discriminate].
      apply IHm in E. inversion H. subst. cbn [length] in E. lia. }
    destruct (c =? 110)%N.
    { apply parse_literal_length in H; [|discriminate]. cbn [length] in H. lia. }
    destruct (c =? 116)%N.
    { apply parse_literal_length in H; [|discriminate]. cbn [length] in H. lia. }
    destruct (c =? 102)%N.
    { apply parse_literal_length in H; [|discriminate]. cbn [length] in H. lia. }
    destruct (parse_number (c :: t)) as [[n r']|] eqn:E; [|discriminate].
    apply parse_number_length in E. inversion H. subst.
    cbn [length] in E. lia.
  - intros s l r H. cbn [parse_elements] in H.
    destruct (parse_value f s) as [[v r1]|] eqn:E; [|discriminate].
    apply IHv in E.
    pose proof (skip_ws_length r1) as Hs.
    destruct (skip_ws r1) as [|c t]; [discriminate|]. cbn [length] in Hs.
    destruct (c =? 44)%N.
    { destruct (parse_elements f t) as [[l' r']|] eqn:E'; [|discriminate].
      apply IHe in E'. inversion H. subst. lia. }
    destruct (c =? 93)%N; [|discriminate]. inversion H. subst. lia.
  - intros s m r H. cbn [parse_members] in H.
    pose proof (skip_ws_length s) as Hs.
    destruct (skip_ws s) as [|q t]; [discriminate|]. cbn [length] in Hs.
    destruct (negb (q =? 34)%N); [discriminate|].
    destruct (parse_chars t) as [[k r1]|] eqn:Ek; [|discriminate].
    apply parse_chars_length in Ek.
    pose proof (skip_ws_length r1) as Hs1.
    destruct (skip_ws r1) as [|c1 r2]; [discriminate|]. cbn [length] in Hs1.
    destruct (negb (c1 =? 58)%N); [discriminate|].
    destruct (parse_value f r2) as [[v r3]|] eqn:E; [|discriminate].
    apply IHv in E.
    pose proof (skip_ws_length r3) as Hs3.
    destruct (skip_ws r3) as [|c t']; [discriminate|]. cbn [length] in Hs3.
    destruct (c =? 44)%N.
    { destruct (parse_members f t') as [[m' r']|] eqn:E'; [|discriminate].
      apply IHm in E'. inversion H. subst. lia. }
    destruct (c =? 125)%N; [|discriminate]. inversion H. subst. lia.
Qed.

(** What a call returns with some fuel it returns with any fuel above
    twice the length of its text. *)
Lemma parse_fuel (fuel : nat) :
  (forall s x g, parse_value fuel s = Some x ->
     (2 * length s + 2 <= g)%nat -> parse_value g s = Some x)
  /\ (forall s x g, parse_elements fuel s = Some x ->
        (2 * length s + 3 <= g)%nat -> parse_elements g s = Some x)
  /\ (forall s x g, parse_members fuel s = Some x ->
        (2 * length s + 3 <= g)%nat -> parse_members g s = Some x).
Proof.
  induction fuel as [|f [IHv [IHe IHm]]];
    [repeat split; intros; discriminate|].
  destruct (parse_consumes f) as [Cv [Ce Cm]].
  repeat split.
  - intros s x g H Hg. destruct g as [|g]; [lia|].
    cbn [parse_value] in H |- *.
    pose proof (skip_ws_length s) as Hs.
    destruct (skip_ws s) as [|c t]; [discriminate|]. cbn [length] in Hs.
    destruct (c =? 34)%N; [exact H|].
    destruct (c =? 91)%N.
    { pose proof (skip_ws_length t) as Ht.
      destruct (skip_ws t) as [|d t']; [discriminate|]. cbn [length] in Ht.
      destruct (d =? 93)%N; [exact H|].
      destruct (parse_elements f (d :: t')) as [p|] eqn:E; [|discriminate].
      rewrite (IHe _ _ g E) by (cbn [length]; lia). exact H. }
    destruct (c =? 123)%N.
    { pose proof (skip_ws_length t) as Ht.
      destruct (skip_ws t) as [|d t']; [discriminate|]. cbn [length] in Ht.
      destruct (d =? 125)%N; [exact H|].
      destruct (parse_members f (d :: t')) as [p|] eqn:E; [|discriminate].
      rewrite (IHm _ _ g E) by (cbn [length]; lia). exact H. }
    exact H.
  - intros s x g H Hg. destruct g as [|g]; [lia|].
    cbn [parse_elements] in H |- *.
    destruct (parse_value f s) as [[v r1]|] eqn:E; [|discriminate].
    rewrite (IHv _ _ g E) by lia.
    apply Cv in E.
    pose proof (skip_ws_length r1) as Hs.
    destruct (skip_ws r1) as [|c t]; [discriminate|]. cbn [length] in Hs.
    destruct (c =? 44)%N; [|exact H].
    destruct (parse_elements f t) as [p|] eqn:E'; [|discriminate].
    rewrite (IHe _ _ g E') by lia. exact H.
  - intros s x g H Hg. destruct g as [|g]; [lia|].
    cbn [parse_members] in H |- *.
    pose proof (skip_ws_length s) as Hs.
    destruct (skip_ws s) as [|q t]; [discriminate|]. cbn [length] in Hs.
    destruct (negb (q =? 34)%N); [discriminate|].
    destruct (parse_chars t) as [[k r1]|] eqn:Ek; [|discriminate].
    apply parse_chars_length in Ek.
    pose proof (skip_ws_length r1) as Hs1.
    destruct (skip_ws r1) as [|c1 r2]; [discriminate|]. cbn [length] in Hs1.
    destruct (negb (c1 =? 58)%N); [discriminate|].
    destruct (parse_value f r2) as [[v r3]|] eqn:E; [|discriminate].
    rewrite (IHv _ _ g E) by lia.
    apply Cv in E.
    pose proof (skip_ws_length r3) as Hs3.
    destruct (skip_ws r3) as [|c t']; [discriminate|]. cbn [length] in Hs3.
    destruct (c =? 44)%N; [|exact H].
    destruct (parse_members f t') as [p|] eqn:E'; [|discriminate].
    rewrite (IHm _ _ g E') by lia. exact H.
Qed.

(** No text is rejected for want of fuel: a value that some fuel reads
    from the whole of a text is what [parse] returns. *)
Theorem parse_fuel_independent (fuel : nat) (s : jsstring) (v : json)
  (r : jsstring) :
  parse_value fuel s = Some (v, r) -> skip_ws r = [] -> parse s = Some v.
Proof.
  intros H Hr. unfold parse.
  rewrite (proj1 (parse_fuel fuel) s (v, r) (2 * length s + 2) H)
    by lia.
  rewrite Hr. reflexivity.
Qed.

End JSONFacts.

(** ** The history store *)

Module StoreFacts.

Import Retrying History HistoryModel.

(** *** The storage medium *)

Lemma jsstring_eqb_refl (k : jsstring) : jsstring_eqb k k = true.
Proof.
  unfold jsstring_eqb. destruct (list_eq_dec N.eq_dec k k); congruence.
Qed.

Lemma lookup_put (k v : jsstring) (l : list (jsstring * jsstring)) :
  lookup k (put k v l) = Some v.
Proof.
  induction l as [|[k' v'] l IH]; cbn [put lookup].
  - rewrite jsstring_eqb_refl. reflexivity.
  - destruct (jsstring_eqb k k') eqn:E; cbn [lookup].
    + rewrite jsstring_eqb_refl. reflexivity.
    + rewrite E. exact IH.
Qed.

Lemma put_put (k v v' : jsstring) (l : list (jsstring * jsstring)) :
  put k v' (put k v l) = put k v' l.
Proof.
  induction l as [|[k' w] l IH]; cbn [put].
  - rewrite jsstring_eqb_refl. reflexivity.
  - destruct (jsstring_eqb k k') eqn:E; cbn [put].
    + rewrite jsstring_eqb_refl. reflexivity.
    + rewrite E, IH. reflexivity.
Qed.

Lemma used_put (k v : jsstring) (l : list (jsstring * jsstring)) :
  used (put k v l) = (used (put k [] l) + Z.of_nat (length v))%Z.
Proof.
  induction l as [|[k' w] l IH]; cbn [put used length].
  - lia.
  - destruct (jsstring_eqb k k'); cbn [used length]; lia.
Qed.

Lemma setItem_accepts (ls : LocalStorage) (k v : jsstring) :
  (used (put k [] (items ls)) + Z.of_nat (length v) <= quota ls)%Z ->
  setItem ls k v = Return (mkLocalStorage (put k v (items ls)) (quota ls)).
Proof.
  intros H. unfold setItem. rewrite used_put.
  destruct (Z.ltb_spec (quota ls)
              (used (put k [] (items ls)) + Z.of_nat (length v)));
    [lia|reflexivity].
Qed.

Lemma setItem_rejects (ls : LocalStorage) (k v : jsstring) :
  (used (put k [] (items ls)) + Z.of_nat (length v) > quota ls)%Z ->
  setItem ls k v = Throw QuotaExceededError.
Proof.
  intros H. unfold setItem. rewrite used_put.
  destruct (Z.ltb_spec (quota ls)
              (used (put k [] (items ls)) + Z.of_nat (length v)));
    [reflexivity|lia].
Qed.

(** *** Reading the history *)

Lemma parse_empty_array : parse (utf16 "[]") = Some (JArr []).
Proof. reflexivity. Qed.

Lemma read_history (eng : Engine) (ls : LocalStorage) (cur : list json) :
  holds ls cur -> forallb plain cur = true ->
  JSON_parse eng (or_else (getItem ls mealHistory) (utf16 "[]"))
  = Return (JArr cur).
Proof.
  intros [H|[-> H]] Hp.
  - rewrite H.
    change (or_else (Some (JSON_stringify (JArr cur))) (utf16 "[]"))
      with (JSON_stringify (JArr cur)).
    apply JSONFacts.JSON_parse_stringify. exact Hp.
  - assert (E : or_else (getItem ls mealHistory) (utf16 "[]") = utf16 "[]").
    { destruct (getItem ls mealHistory) as [[|c r]|];
        try reflexivity; discriminate. }
    rewrite E. unfold JSON_parse. rewrite parse_empty_array. reflexivity.
Qed.

Lemma getMealHistory_holds (eng : Engine) (ls : LocalStorage)
  (cur : list json) :
  holds ls cur -> forallb plain cur = true ->
  getMealHistory eng ls = Return (JArr cur).
Proof.
  intros H Hp. unfold getMealHistory.
  rewrite (read_history eng ls cur H Hp). reflexivity.
Qed.

(** *** One save *)

Lemma storage_image_returned (b : Browser) (image : jsstring) :
  compressImage b image 200 (7 # 10) = Return (storage_image b image).
Proof.
  unfold storage_image.
  destruct (CodecFacts.compressImage_returns b image 200 (7 # 10)) as [s E].
  rewrite E. reflexivity.
Qed.

Lemma forallb_firstn {A} (f : A -> bool) (n : nat) (l : list A) :
  forallb f l = true -> forallb f (firstn n l) = true.
Proof.
  revert n. induction l as [|x l IH]; intros n H.
  - rewrite firstn_nil. reflexivity.
  - destruct n as [|n]; [reflexivity|].
    cbn [forallb firstn] in *. apply andb_true_iff in H.
    destruct H as [Hx Hl]. rewrite Hx, IH by assumption. reflexivity.
Qed.

Lemma plain_new_record (b : Browser) (image : jsstring) (result : json)
  (mealType : MealType) :
  plain (new_record b image result mealType) = plain result.
Proof.
  unfold new_record, MealRecord. cbn [plain forallb snd].
  rewrite andb_true_r. reflexivity.
Qed.

Lemma plain_next_history (r : json) (cur : list json) :
  plain r = true -> forallb plain cur = true ->
  forallb plain (next_history r cur) = true.
Proof.
  intros Hr Hc. unfold next_history.
  assert (H : forallb plain (firstn 20 (r :: cur)) = true).
  { apply forallb_firstn. cbn [forallb]. rewrite Hr, Hc. reflexivity. }
  destruct (budget <? serialized_size (firstn 20 (r :: cur)))%Z;
    [apply forallb_firstn|]; exact H.
Qed.

Lemma holds_stored (ls : LocalStorage) (h : list json) : holds (stored ls h) h.
Proof. left. unfold stored, getItem. cbn [items]. apply lookup_put. Qed.

Lemma base_stored (ls : LocalStorage) (h : list json) :
  base (stored ls h) = base ls.
Proof. unfold base, stored. cbn [items]. rewrite put_put. reflexivity. Qed.

(** [saveMealRecord] refines the model of section 4.4 as long as the
    medium accepts what it writes. *)
Lemma save_follows_model (b : Browser) (image : jsstring) (result : json)
  (mealType : MealType) (ls : LocalStorage) (cur : list json) :
  holds ls cur -> forallb plain cur = true ->
  (base ls
   + serialized_size (next_history (new_record b image result mealType) cur)
   <= quota ls)%Z ->
  saveMealRecord b image result mealType ls
  = (Return tt,
     stored ls (next_history (new_record b image result mealType) cur)).
Proof.
  intros H Hp Hq. unfold saveMealRecord.
  rewrite storage_image_returned.
  destruct (CodecFacts.compressImage_returns b image 800 (8 # 10)) as [api E].
  rewrite E. cbn [bind].
  rewrite (read_history (engine b) ls cur H Hp). cbn [bind spread].
  fold (new_record b image result mealType).
  revert Hq. unfold next_history, serialized_size, budget, base.
  destruct (4 * 1024 * 1024
            <? Z.of_nat (length (JSON_stringify
                 (JArr (firstn 20 (new_record b image result mealType :: cur))))))%Z;
    intros Hq;
    rewrite setItem_accepts by exact Hq; reflexivity.
Qed.

(** *** A sequence of saves *)

Lemma save_all_follows_model (ms : list Meal) :
  forall (ls : LocalStorage) (cur : list json),
    holds ls cur -> forallb plain cur = true ->
    forallb (fun m => plain (meal_result m)) ms = true ->
    affordable (quota ls - base ls) (map record_of ms) cur = true ->
    holds (save_all ms ls) (history_after (map record_of ms) cur)
    /\ forallb plain (history_after (map record_of ms) cur) = true
    /\ quota (save_all ms ls) = quota ls
    /\ base (save_all ms ls) = base ls.
Proof.
  induction ms as [|m ms IH]; intros ls cur H Hp Hr Ha.
  - cbn. auto.
  - cbn [forallb] in Hr. apply andb_true_iff in Hr. destruct Hr as [Hm Hr].
    cbn [map affordable] in Ha. apply andb_true_iff in Ha.
    destruct Ha as [Hfit Ha]. apply Z.geb_le in Hfit.
    cbn [save_all fold_left map history_after].
    fold (save_all ms (save ls m)).
    fold (history_after (map record_of ms) (next_history (record_of m) cur)).
    assert (E : save ls m = stored ls (next_history (record_of m) cur)).
    { unfold save, record_of.
      rewrite (save_follows_model (meal_browser m) (meal_image m)
                 (meal_result m) (meal_type m) ls cur H Hp).
      - reflexivity.
      - unfold record_of in Hfit. lia. }
    rewrite E.
    assert (Hpn : forallb plain (next_history (record_of m) cur) = true).
    { apply plain_next_history; [|exact Hp].
      unfold record_of. rewrite plain_new_record. exact Hm. }
    destruct (IH (stored ls (next_history (record_of m) cur))
                 (next_history (record_of m) cur)) as [Hh [Hpl [Hq Hb]]].
    + apply holds_stored.
    + exact Hpn.
    + exact Hr.
    + rewrite base_stored. exact Ha.
    + rewrite base_stored in Hb. auto.
Qed.

Lemma next_history_within (r : json) (cur : list json) :
  (serialized_size (firstn 20 (r :: cur)) <= budget)%Z ->
  next_history r cur = firstn 20 (r :: cur).
Proof.
  intros H. unfold next_history.
  destruct (Z.ltb_spec budget (serialized_size (firstn 20 (r :: cur))));
    [lia|reflexivity].
Qed.

Lemma next_history_beyond (r : json) (cur : list json) :
  (serialized_size (firstn 20 (r :: cur)) > budget)%Z ->
  next_history r cur = firstn 10 (r :: cur).
Proof.
  intros H. unfold next_history.
  destruct (Z.ltb_spec budget (serialized_size (firstn 20 (r :: cur))));
    [|lia].
  rewrite firstn_firstn. reflexivity.
Qed.

Lemma within_model (room : Z) (rs : list json) :
  forall cur,
    within (Z.min budget room) rs cur = true ->
    affordable room rs cur = true
    /\ history_after rs cur = fold_left (fun c r => firstn 20 (r :: c)) rs cur.
Proof.
  induction rs as [|r rs IH]; intros cur H; [split; reflexivity|].
  cbn [within] in H. apply andb_true_iff in H. destruct H as [Hs H].
  apply Z.geb_le in Hs.
  cbn [affordable history_after fold_left].
  rewrite next_history_within by lia.
  destruct (IH _ H) as [Ha Hh]. split.
  - rewrite Ha, andb_true_r. apply Z.geb_le. lia.
  - exact Hh.
Qed.

Lemma firstn_app_firstn {A} (a b : list A) :
  forall n m, (n <= m)%nat -> firstn n (a ++ firstn m b) = firstn n (a ++ b).
Proof.
  induction a as [|x a IH]; intros n m H; cbn [app].
  - rewrite firstn_firstn. f_equal. lia.
  - destruct n as [|n]; [reflexivity|]. cbn [firstn].
    rewrite (IH n m) by lia. reflexivity.
Qed.

(** Prepending and truncating one record at a time keeps the most recent
    ones, most recent first. *)
Lemma prepend_truncate {A} (n : nat) (rs : list A) :
  forall cur, (length cur <= n)%nat ->
    fold_left (fun c r => firstn n (r :: c)) rs cur = firstn n (rev rs ++ cur).
Proof.
  induction rs as [|r rs IH]; intros cur H; cbn [fold_left rev app].
  - rewrite firstn_all2 by exact H. reflexivity.
  - rewrite IH by (rewrite length_firstn; lia).
    rewrite firstn_app_firstn by lia.
    rewrite <- app_assoc. reflexivity.
Qed.

(** C2, as the code has it.  As long as every collection on the way
    serializes within the 4 MiB budget and within the room the medium has
    left, each save prepends its record and truncates to 20: after the
    saves [ms] on a history [cur] the store returns the 20 most recent
    records, most recent first, and exactly 20 of them once more than 20
    were saved. *)
Theorem saves_keep_twenty_most_recent (eng : Engine) (ms : list Meal)
  (ls : LocalStorage) (cur : list json) :
  holds ls cur -> (length cur <= 20)%nat -> forallb plain cur = true ->
  forallb (fun m => plain (meal_result m)) ms = true ->
  within (Z.min budget (quota ls - base ls)) (map record_of ms) cur = true ->
  getMealHistory eng (save_all ms ls)
  = Return (JArr (firstn 20 (rev (map record_of ms) ++ cur)))
  /\ ((20 < length ms)%nat ->
      length (firstn 20 (rev (map record_of ms) ++ cur)) = 20%nat).
Proof.
  intros H Hlen Hp Hr Hw.
  destruct (within_model _ _ _ Hw) as [Ha Hh].
  destruct (save_all_follows_model ms ls cur H Hp Hr Ha) as [Hs [Hpl _]].
  rewrite Hh, (prepend_truncate 20 _ cur Hlen) in Hs, Hpl.
  split.
  - apply getMealHistory_holds; assumption.
  - intros Hms. rewrite length_firstn, length_app, length_rev, length_map.
    lia.
Qed.

Lemma saves_keep_twenty_most_recent_witness :
  getMealHistory Samples.v8 (save_all (Samples.snapshots 21) Samples.empty_origin)
  = Return (JArr (firstn 20
                    (rev (map record_of (Samples.snapshots 21)) ++ [])))
  /\ ((20 < length (Samples.snapshots 21))%nat ->
      length (firstn 20 (rev (map record_of (Samples.snapshots 21)) ++ []))
      = 20%nat).
Proof.
  apply (saves_keep_twenty_most_recent Samples.v8 (Samples.snapshots 21)
           Samples.empty_origin []).
  - right. split; reflexivity.
  - simpl. lia.
  - reflexivity.
  - reflexivity.
  - vm_compute. reflexivity.
Defined.

(** C7, as the code has it.  A save whose collection of at most 20
    records serializes to more than the budget persists the 10 most
    recent records, whatever their size: the size is not looked at
    again. *)
Theorem over_budget_save_keeps_ten (eng : Engine) (b : Browser)
  (image : jsstring) (result : json) (mealType : MealType)
  (ls : LocalStorage) (cur : list json) :
  holds ls cur -> forallb plain cur = true -> plain result = true ->
  (serialized_size (firstn 20 (new_record b image result mealType :: cur))
   > budget)%Z ->
  (base ls
   + serialized_size (firstn 10 (new_record b image result mealType :: cur))
   <= quota ls)%Z ->
  let ls' := snd (saveMealRecord b image result mealType ls) in
  fst (saveMealRecord b image result mealType ls) = Return tt
  /\ getItem ls' mealHistory
     = Some (JSON_stringify
               (JArr (firstn 10 (new_record b image result mealType :: cur))))
  /\ getMealHistory eng ls'
     = Return (JArr (firstn 10 (new_record b image result mealType :: cur)))
  /\ (length (firstn 10 (new_record b image result mealType :: cur)) <= 10)%nat.
Proof.
  intros H Hp Hr Hover Hq ls'. subst ls'.
  pose proof (next_history_beyond _ cur Hover) as E.
  rewrite (save_follows_model b image result mealType ls cur H Hp)
    by (rewrite E; exact Hq).
  rewrite E. cbn [fst snd]. repeat split.
  - unfold stored, getItem. cbn [items]. apply lookup_put.
  - apply getMealHistory_holds; [apply holds_stored|].
    apply forallb_firstn. cbn [forallb].
    rewrite plain_new_record, Hr, Hp. reflexivity.
  - rewrite length_firstn. lia.
Qed.

(** C8. [getMealHistory] and [loadData] return a value whatever the slot
    holds: the parsed text when it parses, and the empty collection when
    the text does not parse or the slot is absent. *)
Theorem loading_never_raises (eng : Engine) (ls : LocalStorage) :
  (exists v, getMealHistory eng ls = Return v)
  /\ (forall data,
        getItem ls mealHistory = Some data -> parse data = None ->
        getMealHistory eng ls = Return (JArr []))
  /\ (getItem ls mealHistory = None ->
      getMealHistory eng ls = Return (JArr []))
  /\ (exists v, Tabbed.loadData eng ls = Return v)
  /\ (forall data,
        getItem ls Tabbed.STORAGE_KEY = Some data -> parse data = None ->
        Tabbed.loadData eng ls = Return (JArr []))
  /\ (getItem ls Tabbed.STORAGE_KEY = None ->
      Tabbed.loadData eng ls = Return (JArr [])).
Proof.
  unfold getMealHistory, Tabbed.loadData, JSON_parse. repeat split.
  - destruct (parse (or_else (getItem ls mealHistory) (utf16 "[]"))); eauto.
  - intros data Hd Hn. rewrite Hd.
    destruct data as [|c r]; [reflexivity|].
    cbn [or_else]. rewrite Hn. reflexivity.
  - intros Hd. rewrite Hd. reflexivity.
  - destruct (getItem ls Tabbed.STORAGE_KEY) as [[|c r]|]; eauto.
    destruct (parse (c :: r)); eauto.
  - intros data Hd Hn. rewrite Hd.
    destruct data as [|c r]; [reflexivity|]. rewrite Hn. reflexivity.
  - intros Hd. rewrite Hd. reflexivity.
Qed.

Lemma loading_never_raises_witness :
  getMealHistory Samples.v8
    (mkLocalStorage [(mealHistory, utf16 "[{id:170000")] 5242880)
  = Return (JArr []).
Proof.
  apply (proj1 (proj2 (loading_never_raises Samples.v8
           (mkLocalStorage [(mealHistory, utf16 "[{id:170000")] 5242880)))
         (utf16 "[{id:170000")); reflexivity.
Defined.

(** *** Sizes *)

Lemma join_elements_size (l : list json) :
  l <> [] ->
  Z.of_nat (length (join_elements stringify l))
  = (sizes l + Z.of_nat (length l) - 1)%Z.
Proof.
  induction l as [|x l IH]; intros Hne; [contradiction|].
  cbn [join_elements sizes fold_right]. fold (join_elements stringify).
  fold (sizes l). rewrite length_app.
  destruct l as [|y l].
  - cbn [length sizes fold_right]. lia.
  - specialize (IH ltac:(discriminate)). rewrite length_cons.
    cbn [length] in *. lia.
Qed.

Lemma serialized_size_nonempty (l : list json) :
  l <> [] ->
  serialized_size l = (sizes l + Z.of_nat (length l) + 1)%Z.
Proof.
  intros Hne. unfold serialized_size, JSON_stringify. cbn [stringify].
  rewrite length_cons, length_app. cbn [length].
  pose proof (join_elements_size l Hne). lia.
Qed.

Lemma sizes_uniform (s : Z) (l : list json) :
  uniform s l -> sizes l = (Z.of_nat (length l) * s)%Z.
Proof.
  intros H. induction H as [|x l Hx _ IH]; [reflexivity|].
  cbn [sizes fold_right length]. fold (sizes l). rewrite IH, Hx. lia.
Qed.

Lemma serialized_size_uniform (s : Z) (l : list json) :
  uniform s l -> l <> [] ->
  serialized_size l = (Z.of_nat (length l) * (s + 1) + 1)%Z.
Proof.
  intros H Hne. rewrite serialized_size_nonempty by exact Hne.
  rewrite (sizes_uniform s l H). lia.
Qed.

Lemma uniform_firstn (s : Z) (n : nat) (l : list json) :
  uniform s l -> uniform s (firstn n l).
Proof.
  unfold uniform. intros H. revert n.
  induction H as [|x l Hx _ IH]; intros [|n]; cbn [firstn];
    constructor; auto.
Qed.

(** *** Ten records that do not fit the budget *)

Section Uniform.

Variable s : Z.
Hypothesis size_nonneg : (0 <= s)%Z.
Hypothesis nine_fit : (9 * (s + 1) + 1 <= budget)%Z.
Hypothesis ten_do_not : (budget < 10 * (s + 1) + 1)%Z.

Lemma next_history_uniform (r : json) (cur : list json) :
  uniform s (r :: cur) -> (length cur <= 10)%nat ->
  next_history r cur = firstn 10 (r :: cur).
Proof.
  intros Hu Hlen. unfold next_history.
  rewrite (@firstn_all2 _ 20 (r :: cur)) by (cbn [length]; lia).
  rewrite (serialized_size_uniform s (r :: cur) Hu) by discriminate.
  cbn [length].
  destruct (Z.ltb_spec budget (Z.of_nat (S (length cur)) * (s + 1) + 1))
    as [Hgt|Hle]; [reflexivity|].
  rewrite firstn_all2; [reflexivity|]. cbn [length]. nia.
Qed.

Lemma history_after_uniform (rs : list json) :
  forall cur,
    uniform s rs -> uniform s cur -> (length cur <= 10)%nat ->
    history_after rs cur = firstn 10 (rev rs ++ cur).
Proof.
  induction rs as [|r rs IH]; intros cur Hrs Hcur Hlen.
  - cbn [history_after fold_left rev app].
    rewrite firstn_all2 by exact Hlen. reflexivity.
  - pose proof (Forall_inv Hrs) as Hr.
    pose proof (Forall_inv_tail Hrs) as Hrs'. cbn beta in Hr.
    cbn [history_after fold_left].
    fold (history_after rs (next_history r cur)).
    rewrite next_history_uniform
      by first [assumption | constructor; assumption].
    rewrite IH.
    + rewrite firstn_app_firstn by lia. cbn [rev].
      rewrite <- app_assoc. reflexivity.
    + exact Hrs'.
    + apply uniform_firstn. constructor; assumption.
    + rewrite length_firstn. lia.
Qed.

Lemma affordable_uniform (room : Z) (rs : list json) :
  (10 * (s + 1) + 1 <= room)%Z ->
  forall cur,
    uniform s rs -> uniform s cur -> (length cur <= 10)%nat ->
    affordable room rs cur = true.
Proof.
  intros Hroom. induction rs as [|r rs IH]; intros cur Hrs Hcur Hlen;
    [reflexivity|].
  pose proof (Forall_inv Hrs) as Hr.
  pose proof (Forall_inv_tail Hrs) as Hrs'. cbn beta in Hr.
  cbn [affordable].
  rewrite next_history_uniform
      by first [assumption | constructor; assumption].
  assert (Hu : uniform s (firstn 10 (r :: cur)))
    by (apply uniform_firstn; constructor; assumption).
  rewrite IH; [|exact Hrs'|exact Hu|rewrite length_firstn; lia].
  rewrite andb_true_r. apply Z.geb_le.
  rewrite (serialized_size_uniform s _ Hu) by discriminate.
  rewrite length_firstn. cbn [length]. nia.
Qed.

End Uniform.

(** *** The uploads the browser cannot decode *)

Lemma quote_size (t : jsstring) :
  Z.of_nat (length (quote t)) = (Z.of_nat (length (quote_chars t)) + 2)%Z.
Proof.
  unfold quote. rewrite length_cons, length_app. cbn [length]. lia.
Qed.

Lemma MealRecord_size (id : jsstring) (timestamp : Z) (image : jsstring)
  (result : json) (mealType : MealType) :
  Z.of_nat (length (stringify (MealRecord id timestamp image result mealType)))
  = (51 + Z.of_nat (length (quote id))
     + Z.of_nat (length (Z_toString timestamp))
     + Z.of_nat (length (quote image))
     + Z.of_nat (length (stringify result))
     + Z.of_nat (length (quote (MealType_string mealType))))%Z.
Proof.
  unfold MealRecord. cbn [stringify join_members].
  change (quote (utf16 "id")) with [34; 105; 100; 34]%N.
  change (quote (utf16 "timestamp"))
    with [34; 116; 105; 109; 101; 115; 116; 97; 109; 112; 34]%N.
  change (quote (utf16 "image")) with [34; 105; 109; 97; 103; 101; 34]%N.
  change (quote (utf16 "result"))
    with [34; 114; 101; 115; 117; 108; 116; 34]%N.
  change (quote (utf16 "mealType"))
    with [34; 109; 101; 97; 108; 84; 121; 112; 101; 34]%N.
  repeat (rewrite ?length_app, ?length_cons). cbn [length]. lia.
Qed.

Lemma quote_chars_repeat (n : nat) :
  quote_chars (repeat 65%N n) = repeat 65%N n.
Proof.
  induction n as [|n IH]; [reflexivity|].
  cbn [repeat quote_chars].
  change (is_high_surrogate 65) with false. cbn iota.
  rewrite IH. reflexivity.
Qed.

Lemma photo_size : Z.of_nat (length (quote Samples.photo)) = 430002%Z.
Proof.
  rewrite quote_size. unfold Samples.photo.
  rewrite quote_chars_repeat, repeat_length, N_nat_Z. reflexivity.
Qed.

Lemma upload_size (i : Z) :
  Z.of_nat (length (stringify (record_of (Samples.upload i))))
  = (430002 + Samples.upload_rest i)%Z.
Proof.
  unfold record_of, Samples.upload, new_record.
  cbn [meal_browser meal_image meal_result meal_type].
  change (storage_image
            (Samples.undecodable (fun _ : nat => (1700000000000 + i)%Z))
            Samples.photo)
    with Samples.photo.
  rewrite MealRecord_size, photo_size. unfold Samples.upload_rest.
  cbn [Date_now Samples.undecodable]. lia.
Qed.

Lemma upload_rest_constant (k : nat) :
  (1 <= k <= 21)%nat -> Samples.upload_rest (Z.of_nat k) = 269%Z.
Proof.
  intros H.
  do 22 (destruct k as [|k]; [first [lia | reflexivity]|]). lia.
Qed.

Lemma uploads_uniform (n : nat) :
  (n <= 21)%nat -> uniform 430271 (map record_of (Samples.uploads n)).
Proof.
  intros Hn. unfold uniform, Samples.uploads.
  rewrite map_map. apply Forall_map. apply Forall_forall.
  intros k Hk. apply in_seq in Hk.
  rewrite upload_size, upload_rest_constant by lia. reflexivity.
Qed.

Lemma uploads_plain (n : nat) :
  forallb (fun m => plain (meal_result m)) (Samples.uploads n) = true.
Proof.
  unfold Samples.uploads. apply forallb_forall. intros m Hm.
  apply in_map_iff in Hm. destruct Hm as [k [<- _]]. reflexivity.
Qed.

(** After [n <= 21] uploads the store holds the most recent ten of
    them. *)
Lemma uploads_state (n : nat) :
  (n <= 21)%nat ->
  let h := firstn 10 (rev (map record_of (Samples.uploads n)) ++ []) in
  holds (save_all (Samples.uploads n) Samples.empty_origin) h
  /\ forallb plain h = true
  /\ uniform 430271 h
  /\ quota (save_all (Samples.uploads n) Samples.empty_origin)
     = (5 * 1024 * 1024)%Z
  /\ base (save_all (Samples.uploads n) Samples.empty_origin) = 11%Z.
Proof.
  intros Hn h.
  pose proof (uploads_uniform n Hn) as Hu.
  assert (Hh : history_after (map record_of (Samples.uploads n)) [] = h).
  { apply (history_after_uniform 430271); try (unfold budget; lia);
      [exact Hu | constructor | cbn [length]; lia]. }
  destruct (save_all_follows_model (Samples.uploads n) Samples.empty_origin [])
    as [H1 [H2 [H3 H4]]].
  - right. split; reflexivity.
  - reflexivity.
  - apply uploads_plain.
  - apply (affordable_uniform 430271); try (unfold budget; lia);
      [ change (quota Samples.empty_origin - base Samples.empty_origin)%Z
          with (5 * 1024 * 1024 - 11)%Z; lia
      | exact Hu | constructor | cbn [length]; lia ].
  - rewrite Hh in H1, H2. repeat split; try assumption.
    subst h. apply uniform_firstn. unfold uniform.
    apply Forall_app. split; [|constructor].
    apply Forall_rev. exact Hu.
Qed.

Lemma uploads_count (n : nat) :
  length (firstn 10 (rev (map record_of (Samples.uploads n)) ++ []))
  = Nat.min 10 n.
Proof.
  rewrite length_firstn, length_app, length_rev, length_map.
  unfold Samples.uploads. rewrite length_map, length_seq. cbn [length]. lia.
Qed.

Lemma tenth_upload_uniform (h : list json) :
  uniform 430271 h -> uniform 430271 (record_of (Samples.upload 10) :: h).
Proof.
  intros H. constructor; [|exact H].
  rewrite upload_size. reflexivity.
Qed.

(** The tenth upload: ten records of 430271 characters exceed the
    budget, and all ten are written. *)
Lemma tenth_upload (h : list json) :
  uniform 430271 h -> length h = 9%nat ->
  (serialized_size (firstn 20 (record_of (Samples.upload 10) :: h)) > budget)%Z
  /\ serialized_size (firstn 10 (record_of (Samples.upload 10) :: h))
     = 4302721%Z
  /\ firstn 10 (record_of (Samples.upload 10) :: h)
     = record_of (Samples.upload 10) :: h.
Proof.
  intros Hu Hlen.
  pose proof (tenth_upload_uniform h Hu) as Hu'.
  rewrite !firstn_all2 by (cbn [length]; lia).
  rewrite (serialized_size_uniform 430271 _ Hu') by discriminate.
  cbn [length]. rewrite Hlen. unfold budget. repeat split; lia.
Qed.

Lemma over_budget_save_keeps_ten_witness :
  let b := Samples.undecodable (fun _ => 1700000000000 + 10)%Z in
  let ls := save_all (Samples.uploads 9) Samples.empty_origin in
  let cur := firstn 10 (rev (map record_of (Samples.uploads 9)) ++ []) in
  let ls' := snd (saveMealRecord b Samples.photo Samples.salad snack ls) in
  fst (saveMealRecord b Samples.photo Samples.salad snack ls) = Return tt
  /\ getItem ls' mealHistory
     = Some (JSON_stringify
               (JArr (firstn 10
                        (new_record b Samples.photo Samples.salad snack :: cur))))
  /\ getMealHistory Samples.v8 ls'
     = Return (JArr (firstn 10
                       (new_record b Samples.photo Samples.salad snack :: cur)))
  /\ (length (firstn 10
                (new_record b Samples.photo Samples.salad snack :: cur))
      <= 10)%nat.
Proof.
  intros b ls cur.
  destruct (uploads_state 9 ltac:(lia)) as [H1 [H2 [H3 [H4 H5]]]].
  destruct (tenth_upload cur H3 (uploads_count 9)) as [Hover [Hsize _]].
  apply (over_budget_save_keeps_ten Samples.v8 b Samples.photo Samples.salad
           snack ls cur H1 H2 eq_refl Hover).
  fold ls in H4, H5.
  change (new_record b Samples.photo Samples.salad snack)
    with (record_of (Samples.upload 10)).
  rewrite Hsize, H4, H5. lia.
Defined.

(** C7, counterexample.  Nine uploads of 430000 characters are stored;
    the tenth makes a collection of ten records that exceeds the budget;
    the save writes these ten records, and what it writes is 4302721
    characters long: still over the budget of 4194304. *)
Lemma tenth_upload_is_stored_over_budget :
  let ls := save_all (Samples.uploads 9) Samples.empty_origin in
  let m := Samples.upload 10 in
  exists h,
    holds ls h /\ length h = 9%nat
    /\ (serialized_size (firstn 20 (record_of m :: h)) > budget)%Z
    /\ getItem (save ls m) mealHistory
       = Some (JSON_stringify (JArr (record_of m :: h)))
    /\ length (record_of m :: h) = 10%nat
    /\ Z.of_nat (length (JSON_stringify (JArr (record_of m :: h))))
       = 4302721%Z
    /\ (4302721 > budget)%Z.
Proof.
  intros ls m.
  exists (firstn 10 (rev (map record_of (Samples.uploads 9)) ++ [])).
  destruct (uploads_state 9 ltac:(lia)) as [H1 [H2 [H3 [H4 H5]]]].
  fold ls in H1, H4, H5.
  pose proof (uploads_count 9) as Hlen. change (Nat.min 10 9) with 9%nat in Hlen.
  destruct (tenth_upload _ H3 Hlen) as [Hover [Hsize Hall]].
  pose proof (next_history_beyond _ _ Hover) as E. rewrite Hall in E.
  rewrite Hall in Hsize.
  refine (conj H1 (conj Hlen (conj Hover (conj _ (conj _ (conj Hsize _)))))).
  - unfold save, m, Samples.upload.
    cbn [meal_browser meal_image meal_result meal_type].
    rewrite (save_follows_model
               (Samples.undecodable (fun _ : nat => (1700000000000 + 10)%Z))
               Samples.photo Samples.salad snack ls _ H1 H2).
    + cbn [snd].
      change (new_record (Samples.undecodable
                            (fun _ : nat => (1700000000000 + 10)%Z))
                         Samples.photo Samples.salad snack)
        with (record_of (Samples.upload 10)).
      rewrite E. unfold stored, getItem. cbn [items]. apply lookup_put.
    + change (new_record (Samples.undecodable
                            (fun _ : nat => (1700000000000 + 10)%Z))
                         Samples.photo Samples.salad snack)
        with (record_of (Samples.upload 10)).
      rewrite E, Hsize, H4, H5. lia.
  - cbn [length]. rewrite Hlen. reflexivity.
  - unfold budget. lia.
Qed.

(** C2, counterexample.  Twenty-one uploads of 430000 characters, on an
    empty origin with room for all that is written: the store returns ten
    records, not the twenty most recent. *)
Lemma twenty_one_uploads_leave_ten :
  exists h,
    getMealHistory Samples.v8
      (save_all (Samples.uploads 21) Samples.empty_origin)
    = Return (JArr h)
    /\ h = firstn 10 (rev (map record_of (Samples.uploads 21)) ++ [])
    /\ length h = 10%nat.
Proof.
  exists (firstn 10 (rev (map record_of (Samples.uploads 21)) ++ [])).
  destruct (uploads_state 21 ltac:(lia)) as [H1 [H2 _]].
  split; [apply getMealHistory_holds; assumption|].
  split; [reflexivity|apply (uploads_count 21)].
Qed.

(** The tabbed program keeps its records oldest first: a save with a
    captured image puts the new record at the end of the collection, and
    no length caps it. *)
Lemma handleSaveRecord_appends (now : nat -> Z) (result : json)
  (st : Tabbed.AppState) (c : N) (d : jsstring) :
  Tabbed.analysisImage st = Some (c :: d) ->
  exists r,
    Tabbed.records (Tabbed.handleSaveRecord now result st)
    = Tabbed.records st ++ [r]
    /\ length (Tabbed.records (Tabbed.handleSaveRecord now result st))
       = S (length (Tabbed.records st)).
Proof.
  intros H. unfold Tabbed.handleSaveRecord. rewrite H.
  eexists. split; [reflexivity|].
  cbn [Tabbed.records]. rewrite length_app. cbn [length]. lia.
Qed.

End StoreFacts.

(** ** More on the retry policy *)

Module RetryEdgeFacts.

Import Retrying Schedule Timing.

Lemma waited_attempts_from (k : nat) :
  forall a, (0 <= a)%Z ->
    waited (attempts_from a (S k))
    = ((2 ^ (a + Z.of_nat k) - 2 ^ a) * 1000)%Z.
Proof.
  induction k as [|k IH]; intros a Ha.
  - cbn [attempts_from waited]. rewrite Z.add_0_r. lia.
  - change (attempts_from a (S (S k)))
      with (Attempt a :: Wait (2 ^ a * 1000)%Z :: attempts_from (a + 1)%Z (S k)).
    cbn [waited]. rewrite IH by lia.
    replace (a + Z.of_nat (S k))%Z with (a + 1 + Z.of_nat k)%Z by lia.
    rewrite (Z.pow_add_r 2 a 1) by lia.
    change (2 ^ 1)%Z with 2%Z. lia.
Qed.

(** A wrapper called with [maxRetries] below 1 never enters its loop: the
    operation is not called, and the run fails with the error of line
    488. *)
Theorem nonpositive_budget_makes_no_attempt
  (analyzeImage : Z -> jsstring -> completion json)
  (base64Image : jsstring) (maxRetries : Z) :
  (maxRetries <= 0)%Z ->
  analyzeImageWithRetry analyzeImage base64Image maxRetries
  = (Throw (Error (utf16 "Failed after multiple retries")), []).
Proof.
  intros H. unfold analyzeImageWithRetry.
  replace (Z.to_nat maxRetries) with 0%nat by lia. reflexivity.
Qed.

Lemma nonpositive_budget_makes_no_attempt_witness :
  analyzeImageWithRetry (fun _ _ => Return Samples.salad) (utf16 "/9j/4AAQ") 0
  = (Throw (Error (utf16 "Failed after multiple retries")), []).
Proof.
  apply (nonpositive_budget_makes_no_attempt
           (fun _ _ => Return Samples.salad) (utf16 "/9j/4AAQ") 0).
  lia.
Defined.

(** Whatever the operation does, a run with [maxRetries >= 1] calls it
    between 1 and [maxRetries] times, and a run of [k] calls has slept
    [2^k - 2] seconds in all: at most [2^maxRetries - 2] seconds. *)
Theorem sleeping_time_of_a_run
  (analyzeImage : Z -> jsstring -> completion json)
  (base64Image : jsstring) (maxRetries : Z) :
  (1 <= maxRetries)%Z ->
  let run := analyzeImageWithRetry analyzeImage base64Image maxRetries in
  let k := Z.of_nat (length (attempts (snd run))) in
  (1 <= k <= maxRetries)%Z
  /\ waited (snd run) = ((2 ^ k - 2) * 1000)%Z
  /\ (waited (snd run) <= (2 ^ maxRetries - 2) * 1000)%Z.
Proof.
  intros HM run k. subst k run. unfold analyzeImageWithRetry.
  destruct (RetryFacts.loop_schedule analyzeImage base64Image
              (Z.to_nat maxRetries) 1%Z maxRetries)
    as [k [Hk [Hpos E]]]; [lia|].
  rewrite E, RetryFacts.attempts_attempts_from.
  destruct k as [|k]; [lia|].
  rewrite waited_attempts_from by lia.
  replace (1 + Z.of_nat k)%Z with (Z.of_nat (S k)) by lia.
  change (2 ^ 1)%Z with 2%Z.
  assert (Hle : (2 ^ Z.of_nat (S k) <= 2 ^ maxRetries)%Z)
    by (apply Z.pow_le_mono_r; lia).
  split; [lia|]. split; [reflexivity|]. lia.
Qed.

Lemma sleeping_time_of_a_run_witness :
  let run := analyzeImageWithRetry (fun _ _ => Throw rate_limited)
                                   (utf16 "/9j/4AAQ") 3 in
  let k := Z.of_nat (length (attempts (snd run))) in
  (1 <= k <= 3)%Z
  /\ waited (snd run) = ((2 ^ k - 2) * 1000)%Z
  /\ (waited (snd run) <= (2 ^ 3 - 2) * 1000)%Z.
Proof.
  apply (sleeping_time_of_a_run (fun _ _ => Throw rate_limited)
           (utf16 "/9j/4AAQ") 3).
  lia.
Defined.

End RetryEdgeFacts.

(** ** More on the history store *)

Module SaveEdgeFacts.

Import Retrying History HistoryModel.

Lemma jsstring_eqb_eq (a b : jsstring) : jsstring_eqb a b = true <-> a = b.
Proof.
  unfold jsstring_eqb. destruct (list_eq_dec N.eq_dec a b); split;
    congruence.
Qed.

Lemma jsstring_eqb_neq (a b : jsstring) : a <> b -> jsstring_eqb a b = false.
Proof.
  intros H. destruct (jsstring_eqb a b) eqn:E; [|reflexivity].
  apply jsstring_eqb_eq in E. contradiction.
Qed.

Lemma lookup_put_other (k k' v : jsstring) (l : list (jsstring * jsstring)) :
  k' <> k -> lookup k' (put k v l) = lookup k' l.
Proof.
  intros H. induction l as [|[k0 v0] l IH]; cbn [put lookup].
  - rewrite jsstring_eqb_neq by exact H. reflexivity.
  - destruct (jsstring_eqb k k0) eqn:E; cbn [lookup].
    + apply jsstring_eqb_eq in E. subst k0.
      rewrite jsstring_eqb_neq by exact H. reflexivity.
    + rewrite IH. reflexivity.
Qed.

Lemma used_lookup (k v : jsstring) (l : list (jsstring * jsstring)) :
  lookup k l = Some v ->
  used l = (used (put k [] l) + Z.of_nat (length v))%Z.
Proof.
  induction l as [|[k0 v0] l IH]; cbn [lookup put used]; [discriminate|].
  destruct (jsstring_eqb k k0) eqn:E; intros H; cbn [used].
  - inversion H. subst v0. apply jsstring_eqb_eq in E. subst k0.
    cbn [length]. lia.
  - rewrite (IH H). lia.
Qed.

Lemma setItem_returns (ls ls' : LocalStorage) (k v : jsstring) :
  setItem ls k v = Return ls' ->
  ls' = mkLocalStorage (put k v (items ls)) (quota ls).
Proof.
  unfold setItem. destruct (quota ls <? used (put k v (items ls)))%Z;
    intros H; inversion H. reflexivity.
Qed.

Lemma setItem_throws (ls : LocalStorage) (k v : jsstring) (e : JSError) :
  setItem ls k v = Throw e -> e = QuotaExceededError.
Proof.
  unfold setItem. destruct (quota ls <? used (put k v (items ls)))%Z;
    intros H; inversion H. reflexivity.
Qed.

(** What a call of [saveMealRecord] can come to: nothing written, one
    value written to the slot of the history, or a rejection by the
    medium with nothing written. *)
Lemma saveMealRecord_outcomes (b : Browser) (image : jsstring)
  (result : json) (mealType : MealType) (ls : LocalStorage) :
  saveMealRecord b image result mealType ls = (Return tt, ls)
  \/ (exists v,
        saveMealRecord b image result mealType ls
        = (Return tt, mkLocalStorage (put mealHistory v (items ls)) (quota ls)))
  \/ saveMealRecord b image result mealType ls = (Throw QuotaExceededError, ls).
Proof.
  unfold saveMealRecord.
  destruct (CodecFacts.compressImage_returns b image 200 (7 # 10)) as [s1 E1].
  destruct (CodecFacts.compressImage_returns b image 800 (8 # 10)) as [s2 E2].
  rewrite E1, E2. cbn [bind]. unfold JSON_parse.
  destruct (parse (or_else (getItem ls mealHistory) (utf16 "[]")))
    as [v|] eqn:Ep; cbn [bind].
  2: { left. reflexivity. }
  assert (Hrecover :
    forall e, 
      match
        (recentRecords <- slice0 (engine b) 5 v ;;
         setItem ls mealHistory (JSON_stringify recentRecords))
      with
      | Return ls' => (Return tt, ls')
      | Throw e => (@Throw unit e, ls)
      end = e ->
      (forall l, v <> JArr l) /\ (forall s, v <> JStr s)
      \/ (exists w, e = (Return tt,
                         mkLocalStorage (put mealHistory w (items ls)) (quota ls)))
      \/ e = (Throw QuotaExceededError, ls)).
  { intros e He. subst e.
    destruct v; cbn [slice0 bind];
      try (left; split; intros; discriminate).
    - destruct (setItem ls mealHistory (JSON_stringify (JStr (firstn 5 s))))
        as [ls'|e] eqn:Es.
      + right; left. apply setItem_returns in Es. subst ls'. eauto.
      + right; right. apply setItem_throws in Es. subst e. reflexivity.
    - destruct (setItem ls mealHistory
                  (JSON_stringify (JArr (firstn 5 elements))))
        as [ls'|e] eqn:Es.
      + right; left. apply setItem_returns in Es. subst ls'. eauto.
      + right; right. apply setItem_throws in Es. subst e. reflexivity. }
  destruct (spread (engine b) v) as [existing|e] eqn:Esp; cbn [bind].
  2: { left. destruct v; cbn [spread] in Esp; inversion Esp; reflexivity. }
  destruct (4 * 1024 * 1024 <? _)%Z.
  - match goal with
    | |- context [match setItem ls mealHistory ?x with _ => _ end] =>
      destruct (setItem ls mealHistory x) as [ls'|e] eqn:Es
    end.
    + right; left. apply setItem_returns in Es. subst ls'. eauto.
    + apply setItem_throws in Es. subst e.
      change (jsstring_eqb (name QuotaExceededError) (utf16 "QuotaExceededError"))
        with true. cbv iota. cbn [bind].
      destruct (Hrecover _ eq_refl) as [[Ha Hs]|H]; [|right; exact H].
      destruct v; cbn [spread] in Esp; try discriminate;
        [exfalso; eapply Hs | exfalso; eapply Ha]; reflexivity.
  - match goal with
    | |- context [match setItem ls mealHistory ?x with _ => _ end] =>
      destruct (setItem ls mealHistory x) as [ls'|e] eqn:Es
    end.
    + right; left. apply setItem_returns in Es. subst ls'. eauto.
    + apply setItem_throws in Es. subst e.
      change (jsstring_eqb (name QuotaExceededError) (utf16 "QuotaExceededError"))
        with true. cbv iota. cbn [bind].
      destruct (Hrecover _ eq_refl) as [[Ha Hs]|H]; [|right; exact H].
      destruct v; cbn [spread] in Esp; try discriminate;
        [exfalso; eapply Hs | exfalso; eapply Ha]; reflexivity.
Qed.

(** [saveMealRecord] writes to the slot of the history and to no other:
    every other slot of the origin reads after the call as it did
    before, whatever the call did. *)
Theorem save_touches_only_its_slot (b : Browser) (image : jsstring)
  (result : json) (mealType : MealType) (ls : LocalStorage) (k : jsstring) :
  k <> mealHistory ->
  getItem (snd (saveMealRecord b image result mealType ls)) k = getItem ls k.
Proof.
  intros Hk.
  destruct (saveMealRecord_outcomes b image result mealType ls)
    as [E|[[v E]|E]]; rewrite E; cbn [snd]; try reflexivity.
  unfold getItem. cbn [items]. apply lookup_put_other. exact Hk.
Qed.

Lemma save_touches_only_its_slot_witness :
  getItem (snd (saveMealRecord (Samples.thumbnailer (fun _ => 1700000000000%Z))
                  (utf16 "/9j/4AAQ") Samples.salad snack Cases.crowded))
          (utf16 "theme")
  = getItem Cases.crowded (utf16 "theme").
Proof.
  apply (save_touches_only_its_slot
           (Samples.thumbnailer (fun _ => 1700000000000%Z))
           (utf16 "/9j/4AAQ") Samples.salad snack Cases.crowded (utf16 "theme")).
  intros H. vm_compute in H. discriminate H.
Defined.

(** The promise of [saveMealRecord] is rejected in one case only: the
    medium refuses the write of the recovery too.  The rejection is the
    [QuotaExceededError] of the medium, and the storage is as it was. *)
Theorem save_rejects_only_on_quota (b : Browser) (image : jsstring)
  (result : json) (mealType : MealType) (ls : LocalStorage) (e : JSError) :
  fst (saveMealRecord b image result mealType ls) = Throw e ->
  e = QuotaExceededError
  /\ snd (saveMealRecord b image result mealType ls) = ls.
Proof.
  destruct (saveMealRecord_outcomes b image result mealType ls)
    as [E|[[v E]|E]]; rewrite E; cbn [fst snd]; intros H;
    inversion H. split; reflexivity.
Qed.

Lemma save_rejects_only_on_quota_witness :
  QuotaExceededError = QuotaExceededError
  /\ snd (saveMealRecord (Samples.thumbnailer (fun _ => 1700000000000%Z))
            (utf16 "/9j/4AAQ") Samples.salad snack Cases.crowded)
     = Cases.crowded.
Proof.
  apply (save_rejects_only_on_quota
           (Samples.thumbnailer (fun _ => 1700000000000%Z))
           (utf16 "/9j/4AAQ") Samples.salad snack Cases.crowded
           QuotaExceededError).
  vm_compute. reflexivity.
Defined.

(** A slot that holds something else than the text of an array or of a
    string blocks the history: every save resolves without writing, so no
    sequence of saves repairs the slot. *)
Theorem unreadable_slot_drops_every_save (ls : LocalStorage)
  (data : jsstring) :
  getItem ls mealHistory = Some data -> data <> [] ->
  parse data = None
  \/ (exists v, parse data = Some v
                /\ (forall l, v <> JArr l) /\ (forall s, v <> JStr s)) ->
  (forall b image result mealType,
     saveMealRecord b image result mealType ls = (Return tt, ls))
  /\ (forall ms, save_all ms ls = ls).
Proof.
  intros Hd Hne Hbad.
  assert (Hone : forall b image result mealType,
             saveMealRecord b image result mealType ls = (Return tt, ls)).
  { intros b image result mealType. unfold saveMealRecord.
    destruct (CodecFacts.compressImage_returns b image 200 (7 # 10)) as [s1 E1].
    destruct (CodecFacts.compressImage_returns b image 800 (8 # 10)) as [s2 E2].
    rewrite E1, E2, Hd. cbn [bind].
    assert (Eo : or_else (Some data) (utf16 "[]") = data)
      by (destruct data; [contradiction|reflexivity]).
    rewrite Eo. unfold JSON_parse.
    destruct Hbad as [Hp|[v [Hp [Ha Hs]]]]; rewrite Hp; cbn [bind].
    - reflexivity.
    - destruct v; cbn [spread bind]; try reflexivity.
      + exfalso. eapply Hs. reflexivity.
      + exfalso. eapply Ha. reflexivity. }
  split; [exact Hone|].
  induction ms as [|m ms IH]; [reflexivity|].
  unfold save_all in *. cbn [fold_left]. unfold save at 2.
  rewrite Hone. cbn [snd]. exact IH.
Qed.

Lemma unreadable_slot_drops_every_save_witness :
  (forall b image result mealType,
     saveMealRecord b image result mealType Cases.corrupted
     = (Return tt, Cases.corrupted))
  /\ (forall ms, save_all ms Cases.corrupted = Cases.corrupted).
Proof.
  apply (unreadable_slot_drops_every_save Cases.corrupted
           (utf16 "[{id:170000")).
  - reflexivity.
  - discriminate.
  - left. vm_compute. reflexivity.
Defined.

Lemma sizes_nonneg (l : list json) : (0 <= sizes l)%Z.
Proof.
  induction l as [|x l IH]; cbn [sizes fold_right]; [lia|].
  fold (sizes l). lia.
Qed.

Lemma sizes_firstn (n : nat) :
  forall l, (sizes (firstn n l) <= sizes l)%Z.
Proof.
  induction n as [|n IH]; intros l.
  - cbn [firstn]. apply sizes_nonneg.
  - destruct l as [|x l]; cbn [firstn]; [lia|].
    cbn [sizes fold_right]. fold (sizes l). fold (sizes (firstn n l)).
    specialize (IH l). lia.
Qed.

Lemma serialized_size_firstn (n : nat) (l : list json) :
  (serialized_size (firstn n l) <= serialized_size l)%Z.
Proof.
  destruct (firstn n l) as [|y t] eqn:E.
  - destruct l as [|x l]; [lia|].
    rewrite (StoreFacts.serialized_size_nonempty (x :: l)) by discriminate.
    pose proof (sizes_nonneg (x :: l)). cbn [length].
    change (serialized_size []) with 2%Z. lia.
  - rewrite <- E.
    assert (Hl : l <> []) by (intros ->; destruct n; discriminate).
    rewrite (StoreFacts.serialized_size_nonempty (firstn n l))
      by (rewrite E; discriminate).
    rewrite (StoreFacts.serialized_size_nonempty l) by exact Hl.
    pose proof (sizes_firstn n l). rewrite length_firstn. lia.
Qed.

(** When the medium refuses the new collection, the record of the call
    is lost and the slot is rewritten with the five most recent records
    it held: an origin within its quota always has room for them, so the
    call resolves. *)
Theorem refused_write_keeps_five (eng : Engine) (b : Browser)
  (image : jsstring) (result : json) (mealType : MealType)
  (ls : LocalStorage) (cur : list json) :
  getItem ls mealHistory = Some (JSON_stringify (JArr cur)) ->
  forallb plain cur = true ->
  (used (items ls) <= quota ls)%Z ->
  (base ls
   + serialized_size (next_history (new_record b image result mealType) cur)
   > quota ls)%Z ->
  saveMealRecord b image result mealType ls
  = (Return tt, stored ls (firstn 5 cur))
  /\ getMealHistory eng (stored ls (firstn 5 cur))
     = Return (JArr (firstn 5 cur)).
Proof.
  intros Hd Hp Hused Hfull.
  assert (Hh : holds ls cur) by (left; exact Hd).
  split.
  - unfold saveMealRecord.
    rewrite StoreFacts.storage_image_returned.
    destruct (CodecFacts.compressImage_returns b image 800 (8 # 10))
      as [api E].
    rewrite E. cbn [bind].
    rewrite (StoreFacts.read_history (engine b) ls cur Hh Hp).
    cbn [bind spread slice0].
    fold (new_record b image result mealType).
    assert (Hroom : (used (put mealHistory [] (items ls))
                     + Z.of_nat (length (JSON_stringify (JArr (firstn 5 cur))))
                     <= quota ls)%Z).
    { pose proof (used_lookup mealHistory _ (items ls) Hd) as Hu.
      pose proof (serialized_size_firstn 5 cur) as Hs.
      unfold serialized_size in Hs. lia. }
    revert Hfull. unfold next_history, serialized_size, budget, base.
    destruct (4 * 1024 * 1024
              <? Z.of_nat (length (JSON_stringify
                   (JArr (firstn 20 (new_record b image result mealType :: cur))))))%Z;
      intros Hfull;
      rewrite StoreFacts.setItem_rejects by exact Hfull;
      change (jsstring_eqb (name QuotaExceededError) (utf16 "QuotaExceededError"))
        with true; cbv iota;
      rewrite (StoreFacts.setItem_accepts ls mealHistory _ Hroom);
      reflexivity.
  - apply StoreFacts.getMealHistory_holds.
    + apply StoreFacts.holds_stored.
    + apply StoreFacts.forallb_firstn. exact Hp.
Qed.

Lemma refused_write_keeps_five_witness :
  let b := Samples.thumbnailer (fun _ => 1700000000007%Z) in
  saveMealRecord b (utf16 "/9j/4AAQ") Samples.salad snack Cases.brimful
  = (Return tt, stored Cases.brimful (firstn 5 Cases.six))
  /\ getMealHistory Samples.v8 (stored Cases.brimful (firstn 5 Cases.six))
     = Return (JArr (firstn 5 Cases.six)).
Proof.
  apply (refused_write_keeps_five Samples.v8
           (Samples.thumbnailer (fun _ => 1700000000007%Z))
           (utf16 "/9j/4AAQ") Samples.salad snack Cases.brimful Cases.six).
  - reflexivity.
  - reflexivity.
  - vm_compute. discriminate.
  - vm_compute. reflexivity.
Defined.

(** Whatever a save writes respects the cap: after a call on a readable
    history the slot is as it was, or it holds at most 20 records, which
    are the new record before the most recent ones (20 or 10 in all) or,
    after a refusal of the medium, the five most recent ones of before.
    A history longer than 20 is cut by the first save that writes. *)
Theorem every_write_respects_the_cap (b : Browser) (image : jsstring)
  (result : json) (mealType : MealType) (ls : LocalStorage)
  (cur : list json) :
  holds ls cur -> forallb plain cur = true ->
  let r := new_record b image result mealType in
  let ls' := snd (saveMealRecord b image result mealType ls) in
  ls' = ls
  \/ exists h,
       ls' = stored ls h /\ (length h <= 20)%nat
       /\ (h = firstn 20 (r :: cur) \/ h = firstn 10 (r :: cur)
           \/ h = firstn 5 cur).
Proof.
  intros Hh Hp r ls'. subst r ls'. unfold saveMealRecord.
  rewrite StoreFacts.storage_image_returned.
  destruct (CodecFacts.compressImage_returns b image 800 (8 # 10)) as [api E].
  rewrite E. cbn [bind].
  rewrite (StoreFacts.read_history (engine b) ls cur Hh Hp).
  cbn [bind spread slice0].
  fold (new_record b image result mealType).
  assert (Hrecover :
    match setItem ls mealHistory (JSON_stringify (JArr (firstn 5 cur))) with
    | Return ls' => (Return tt, ls')
    | Throw e => (@Throw unit e, ls)
    end = (Return tt, stored ls (firstn 5 cur))
    \/ match setItem ls mealHistory (JSON_stringify (JArr (firstn 5 cur))) with
       | Return ls' => (Return tt, ls')
       | Throw e => (@Throw unit e, ls)
       end = (Throw QuotaExceededError, ls)).
  { destruct (setItem ls mealHistory (JSON_stringify (JArr (firstn 5 cur))))
      as [l5|e5] eqn:E5.
    - left. apply setItem_returns in E5. subst l5. reflexivity.
    - right. apply setItem_throws in E5. subst e5. reflexivity. }
  destruct (4 * 1024 * 1024 <? _)%Z.
  - rewrite firstn_firstn. change (Nat.min 10 20) with 10%nat.
    destruct (setItem ls mealHistory
                (JSON_stringify
                   (JArr (firstn 10 (new_record b image result mealType :: cur)))))
      as [l1|e1] eqn:E1.
    + right. apply setItem_returns in E1. subst l1. cbn [snd].
      eexists. split; [reflexivity|]. split; [|right; left; reflexivity].
      rewrite length_firstn. lia.
    + apply setItem_throws in E1. subst e1.
      change (jsstring_eqb (name QuotaExceededError) (utf16 "QuotaExceededError"))
        with true. cbv iota.
      destruct Hrecover as [H|H]; rewrite H; cbn [snd]; [|left; reflexivity].
      right. eexists. split; [reflexivity|].
      split; [|right; right; reflexivity].
      rewrite length_firstn. lia.
  - destruct (setItem ls mealHistory
                (JSON_stringify
                   (JArr (firstn 20 (new_record b image result mealType :: cur)))))
      as [l1|e1] eqn:E1.
    + right. apply setItem_returns in E1. subst l1. cbn [snd].
      eexists. split; [reflexivity|]. split; [|left; reflexivity].
      rewrite length_firstn. lia.
    + apply setItem_throws in E1. subst e1.
      change (jsstring_eqb (name QuotaExceededError) (utf16 "QuotaExceededError"))
        with true. cbv iota.
      destruct Hrecover as [H|H]; rewrite H; cbn [snd]; [|left; reflexivity].
      right. eexists. split; [reflexivity|].
      split; [|right; right; reflexivity].
      rewrite length_firstn. lia.
Qed.

Lemma every_write_respects_the_cap_witness :
  let b := Samples.thumbnailer (fun _ => 1700000000000%Z) in
  let r := new_record b (utf16 "/9j/4AAQ") Samples.salad snack in
  let ls' := snd (saveMealRecord b (utf16 "/9j/4AAQ") Samples.salad snack
                                 Samples.empty_origin) in
  ls' = Samples.empty_origin
  \/ exists h,
       ls' = stored Samples.empty_origin h /\ (length h <= 20)%nat
       /\ (h = firstn 20 (r :: []) \/ h = firstn 10 (r :: [])
           \/ h = firstn 5 []).
Proof.
  apply (every_write_respects_the_cap
           (Samples.thumbnailer (fun _ => 1700000000000%Z))
           (utf16 "/9j/4AAQ") Samples.salad snack Samples.empty_origin []).
  - right. split; reflexivity.
  - reflexivity.
Defined.

End SaveEdgeFacts.

(** ** More on the inference client and the codec helper *)

Module ClientEdgeFacts.

Import Retrying.

(** The failures of the [analyzeImage] of the second program are known in
    advance: the error of the missing key, one of the five messages of
    the [catch] block, the catch-all message with the text of the caught
    error after it, or the [TypeError] of reading [includes] on a caught
    value without a message. *)
Theorem analyzeImage_failure_messages (eng : Engine) (svc : Service)
  (call : Z) (base64Image : jsstring) (e : JSError) :
  analyzeImage eng svc call base64Image = Throw e ->
  In e [Error (utf16
          "API Key not configured. Please check your .env.local file.");
        Error (utf16
          "API Key 无效或未配置。请检查 .env.local 文件中的 GEMINI_API_KEY。");
        Error (utf16
          "API 配额已用完。请稍后再试或检查您的 Gemini API 配额。");
        Error (utf16 "API 访问被拒绝。请检查 API Key 权限设置。");
        Error (utf16 "请求格式错误。图片可能损坏或格式不支持。");
        Error (utf16 "网络连接失败。请检查网络连接并重试。");
        Error (utf16 "分析失败: 未知错误");
        TypeError (undefinedPropertyMessage eng)]
  \/ (exists msg, msg <> [] /\ e = Error (utf16 "分析失败: " ++ msg)).
Proof.
  unfold analyzeImage.
  destruct (falsy (API_KEY svc)).
  { intros H. inversion H. left. left. reflexivity. }
  match goal with
  | |- match ?a with _ => _ end = _ -> _ => destruct a as [r|error]
  end; [discriminate|].
  unfold classify.
  destruct (message error) as [msg|].
  2: { intros H. inversion H. left. do 7 right. left. reflexivity. }
  destruct (includes msg (utf16 "API_KEY")).
  { intros H. inversion H. left. do 1 right. left. reflexivity. }
  destruct (includes msg (utf16 "quota") || status_is error 429).
  { intros H. inversion H. left. do 2 right. left. reflexivity. }
  destruct (status_is error 403).
  { intros H. inversion H. left. do 3 right. left. reflexivity. }
  destruct (status_is error 400).
  { intros H. inversion H. left. do 4 right. left. reflexivity. }
  destruct (jsstring_eqb (name error) (utf16 "NetworkError")
            || includes msg (utf16 "fetch")).
  { intros H. inversion H. left. do 5 right. left. reflexivity. }
  intros H. inversion H.
  destruct msg as [|c msg].
  - left. do 6 right. left. vm_compute. reflexivity.
  - right. exists (c :: msg). split; [discriminate | reflexivity].
Qed.

Lemma analyzeImage_failure_messages_witness :
  In (Error (utf16 "API 配额已用完。请稍后再试或检查您的 Gemini API 配额。"))
     [Error (utf16
          "API Key not configured. Please check your .env.local file.");
        Error (utf16
          "API Key 无效或未配置。请检查 .env.local 文件中的 GEMINI_API_KEY。");
        Error (utf16
          "API 配额已用完。请稍后再试或检查您的 Gemini API 配额。");
        Error (utf16 "API 访问被拒绝。请检查 API Key 权限设置。");
        Error (utf16 "请求格式错误。图片可能损坏或格式不支持。");
        Error (utf16 "网络连接失败。请检查网络连接并重试。");
        Error (utf16 "分析失败: 未知错误");
        TypeError (undefinedPropertyMessage Samples.v8)]
  \/ (exists msg, msg <> []
        /\ Error (utf16 "API 配额已用完。请稍后再试或检查您的 Gemini API 配额。")
           = Error (utf16 "分析失败: " ++ msg)).
Proof.
  apply (analyzeImage_failure_messages Samples.v8 Samples.throttled 1
           (utf16 "/9j/4AAQ")).
  reflexivity.
Defined.

Lemma split_comma_plain (s : jsstring) :
  forallb (fun c => negb (c =? 44)%N) s = true -> split_comma s = [s].
Proof.
  induction s as [|c s IH]; cbn [forallb split_comma]; [reflexivity|].
  intros H. apply andb_true_iff in H. destruct H as [Hc Hs].
  apply negb_true_iff in Hc. rewrite Hc, (IH Hs). reflexivity.
Qed.

Lemma split_comma_prefix (p s : jsstring) :
  forallb (fun c => negb (c =? 44)%N) p = true ->
  split_comma (p ++ 44%N :: s) = p :: split_comma s.
Proof.
  induction p as [|c p IH]; cbn [forallb app split_comma].
  - intros _. reflexivity.
  - intros H. apply andb_true_iff in H. destruct H as [Hc Hp].
    apply negb_true_iff in Hc. rewrite Hc, (IH Hp). reflexivity.
Qed.

(** When the image decodes and the canvas has a 2d context,
    [compressImage] returns what the encoder produced for the scaled
    canvas, without the [data:] prefix: a base64 payload holds no comma,
    so the second field of the split is all of it. *)
Theorem compressImage_returns_the_payload (b : Browser) (base64 : jsstring)
  (maxWidth : Z) (quality : Q) (img : Picture) :
  decode b base64 = Some img -> context2d b = true ->
  forallb (fun c => negb (c =? 44)%N)
          (encode b base64 (canvas_width maxWidth img)
                  (canvas_height maxWidth img) quality) = true ->
  compressImage b base64 maxWidth quality
  = Return (encode b base64 (canvas_width maxWidth img)
                   (canvas_height maxWidth img) quality).
Proof.
  intros Hd Hc Hp. unfold compressImage. rewrite Hd, Hc. cbn [negb].
  change (utf16 "data:image/jpeg;base64,")
    with (utf16 "data:image/jpeg;base64" ++ [44%N]).
  rewrite <- app_assoc. cbn [app].
  rewrite split_comma_prefix by reflexivity.
  rewrite split_comma_plain by exact Hp. reflexivity.
Qed.

Lemma compressImage_returns_the_payload_witness :
  compressImage (Samples.thumbnailer (fun _ => 0%Z)) (utf16 "/9j/4AAQ")
                800 (8 # 10)
  = Return (encode (Samples.thumbnailer (fun _ => 0%Z)) (utf16 "/9j/4AAQ")
                   (canvas_width 800 (mkPicture 1024 768))
                   (canvas_height 800 (mkPicture 1024 768)) (8 # 10)).
Proof.
  apply (compressImage_returns_the_payload (Samples.thumbnailer (fun _ => 0%Z))
           (utf16 "/9j/4AAQ") 800 (8 # 10) (mkPicture 1024 768)).
  - reflexivity.
  - reflexivity.
  - reflexivity.
Defined.

End ClientEdgeFacts.

(** ** The store of [app.tsx] *)

Module TabbedFacts.

Import Tabbed.

Lemma member_set_property_same (k : jsstring) (v : json)
  (m : list (jsstring * json)) :
  member k (set_property k v m) = Some v.
Proof.
  induction m as [|[k0 v0] m IH]; cbn [set_property member].
  - rewrite StoreFacts.jsstring_eqb_refl. reflexivity.
  - destruct (jsstring_eqb k k0) eqn:E; cbn [member].
    + rewrite StoreFacts.jsstring_eqb_refl. reflexivity.
    + rewrite E. exact IH.
Qed.

Lemma member_set_property_other (k k' : jsstring) (v : json)
  (m : list (jsstring * json)) :
  k' <> k -> member k' (set_property k v m) = member k' m.
Proof.
  intros H. induction m as [|[k0 v0] m IH]; cbn [set_property member].
  - rewrite SaveEdgeFacts.jsstring_eqb_neq by exact H. reflexivity.
  - destruct (jsstring_eqb k k0) eqn:E; cbn [member].
    + apply SaveEdgeFacts.jsstring_eqb_eq in E. subst k0.
      rewrite SaveEdgeFacts.jsstring_eqb_neq by exact H. reflexivity.
    + rewrite IH. reflexivity.
Qed.

Lemma plain_set_property (k : jsstring) (v : json)
  (m : list (jsstring * json)) :
  plain v = true -> forallb (fun kv => plain (snd kv)) m = true ->
  forallb (fun kv => plain (snd kv)) (set_property k v m) = true.
Proof.
  intros Hv. induction m as [|[k0 v0] m IH]; cbn [set_property forallb snd].
  - intros _. rewrite Hv. reflexivity.
  - intros H. apply andb_true_iff in H. destruct H as [H0 Hm].
    destruct (jsstring_eqb k k0); cbn [forallb snd].
    + rewrite Hv, Hm. reflexivity.
    + rewrite H0, (IH Hm). reflexivity.
Qed.

Lemma plain_indexed (l : list json) :
  forall i, forallb plain l = true ->
    forallb (fun kv => plain (snd kv)) (indexed i l) = true.
Proof.
  induction l as [|x l IH]; intros i; cbn [indexed forallb snd];
    [reflexivity|].
  intros H. apply andb_true_iff in H. destruct H as [Hx Hl].
  rewrite Hx, (IH _ Hl). reflexivity.
Qed.

Lemma plain_own_properties (v : json) :
  plain v = true ->
  forallb (fun kv => plain (snd kv)) (own_properties v) = true.
Proof.
  destruct v as [ | b | n | s | l | m ]; cbn [own_properties plain];
    try reflexivity.
  - intros _. apply plain_indexed.
    induction s as [|c s IH]; cbn [map forallb plain]; [reflexivity|exact IH].
  - apply plain_indexed.
  - intros H. exact H.
Qed.

Lemma stringify_array_head (l : list json) :
  exists t, JSON_stringify (JArr l) = 91%N :: t.
Proof. eexists. reflexivity. Qed.

Lemma loadData_saved (eng : Engine) (records : list json)
  (ls : LocalStorage) :
  forallb plain records = true ->
  (used (put STORAGE_KEY [] (items ls))
   + Z.of_nat (length (JSON_stringify (JArr records))) <= quota ls)%Z ->
  loadData eng (saveData records ls) = Return (JArr records).
Proof.
  intros Hp Hq. unfold saveData.
  rewrite StoreFacts.setItem_accepts by exact Hq.
  unfold loadData, getItem. cbn [items]. rewrite StoreFacts.lookup_put.
  destruct (stringify_array_head records) as [t E].
  rewrite E, <- E.
  rewrite JSONFacts.JSON_parse_stringify by exact Hp. reflexivity.
Qed.

Lemma saveData_refused (records : list json) (ls : LocalStorage) :
  (used (put STORAGE_KEY [] (items ls))
   + Z.of_nat (length (JSON_stringify (JArr records))) > quota ls)%Z ->
  saveData records ls = ls.
Proof.
  intros Hq. unfold saveData.
  rewrite StoreFacts.setItem_rejects by exact Hq. reflexivity.
Qed.

(** [saveData] stores all of the collection or nothing: when the medium
    accepts the text, [loadData] returns the collection that was saved;
    when it refuses, the exception is swallowed and the storage is as it
    was. *)
Theorem saveData_stores_all_or_nothing (eng : Engine) (records : list json)
  (ls : LocalStorage) :
  forallb plain records = true ->
  ((used (put STORAGE_KEY [] (items ls))
    + Z.of_nat (length (JSON_stringify (JArr records))) <= quota ls)%Z ->
   loadData eng (saveData records ls) = Return (JArr records))
  /\ ((used (put STORAGE_KEY [] (items ls))
       + Z.of_nat (length (JSON_stringify (JArr records))) > quota ls)%Z ->
      saveData records ls = ls).
Proof.
  intros Hp. split.
  - apply loadData_saved. exact Hp.
  - apply saveData_refused.
Qed.

Lemma saveData_stores_all_or_nothing_witness :
  loadData Samples.v8 (saveData [Samples.salad; Samples.incomplete]
                                Samples.empty_origin)
  = Return (JArr [Samples.salad; Samples.incomplete]).
Proof.
  apply (proj1 (saveData_stores_all_or_nothing Samples.v8
                  [Samples.salad; Samples.incomplete] Samples.empty_origin
                  eq_refl)).
  vm_compute. discriminate.
Defined.

(** [handleSaveRecord] with an image to save appends one record to the
    collection of the component and clears the image.  When the medium
    accepts the new collection, a reload returns exactly the collection
    of the component; when it refuses, the storage keeps the collection
    without the new record, which a reload therefore loses. *)
Theorem handleSaveRecord_and_reload (eng : Engine) (now : nat -> Z)
  (result : json) (st : AppState) (c : N) (d : jsstring) :
  analysisImage st = Some (c :: d) ->
  forallb plain (records st) = true -> plain result = true ->
  let st' := handleSaveRecord now result st in
  let text := JSON_stringify (JArr (records st')) in
  analysisImage st' = None
  /\ length (records st') = S (length (records st))
  /\ ((used (put STORAGE_KEY [] (items (storage st)))
       + Z.of_nat (length text) <= quota (storage st))%Z ->
      loadData eng (storage st') = Return (JArr (records st')))
  /\ ((used (put STORAGE_KEY [] (items (storage st)))
       + Z.of_nat (length text) > quota (storage st))%Z ->
      storage st' = storage st).
Proof.
  intros Hi Hp Hr st' text. subst st' text.
  unfold handleSaveRecord. rewrite Hi. cbn [analysisImage records storage].
  split; [reflexivity|].
  split; [rewrite length_app; cbn [length]; lia|].
  split.
  - apply loadData_saved.
    rewrite forallb_app, Hp. cbn [forallb plain andb].
    rewrite andb_true_r.
    apply plain_set_property; [reflexivity|].
    apply plain_set_property; [reflexivity|].
    apply plain_set_property; [reflexivity|].
    apply plain_own_properties. exact Hr.
  - apply saveData_refused.
Qed.

Lemma handleSaveRecord_and_reload_witness :
  let st := mkAppState [] (Some (utf16 "/9j/4AAQ")) Samples.empty_origin in
  let st' := handleSaveRecord (fun _ => 1700000000000%Z) Samples.salad st in
  let text := JSON_stringify (JArr (records st')) in
  analysisImage st' = None
  /\ length (records st') = S (length (records st))
  /\ ((used (put STORAGE_KEY [] (items (storage st)))
       + Z.of_nat (length text) <= quota (storage st))%Z ->
      loadData Samples.v8 (storage st') = Return (JArr (records st')))
  /\ ((used (put STORAGE_KEY [] (items (storage st)))
       + Z.of_nat (length text) > quota (storage st))%Z ->
      storage st' = storage st).
Proof.
  apply (handleSaveRecord_and_reload Samples.v8 (fun _ => 1700000000000%Z)
           Samples.salad
           (mkAppState [] (Some (utf16 "/9j/4AAQ")) Samples.empty_origin)
           47%N (utf16 "9j/4AAQ")).
  - reflexivity.
  - reflexivity.
  - reflexivity.
Defined.

(** The record [handleSaveRecord] appends carries the identifier, the
    time and the image of the call under [id], [timestamp] and [image],
    also when the analysis has properties of these names, and every other
    property of the analysis with its value. *)
Theorem saved_record_fields (now : nat -> Z) (result : json)
  (st : AppState) (c : N) (d : jsstring) :
  analysisImage st = Some (c :: d) ->
  exists m,
    records (handleSaveRecord now result st) = records st ++ [JObj m]
    /\ member (utf16 "id") m = Some (JStr (Z_toString (now 0%nat)))
    /\ member (utf16 "timestamp") m = Some (JNum (Int (now 1%nat)))
    /\ member (utf16 "image") m = Some (JStr (c :: d))
    /\ (forall k, k <> utf16 "id" -> k <> utf16 "timestamp" ->
          k <> utf16 "image" ->
          member k m = member k (own_properties result)).
Proof.
  intros Hi. unfold handleSaveRecord. rewrite Hi. cbn [records].
  eexists. split; [reflexivity|].
  split; [|split; [|split]].
  - rewrite !member_set_property_other
      by (intros H; vm_compute in H; discriminate H).
    apply member_set_property_same.
  - rewrite member_set_property_other
      by (intros H; vm_compute in H; discriminate H).
    apply member_set_property_same.
  - apply member_set_property_same.
  - intros k H1 H2 H3.
    rewrite !member_set_property_other by assumption. reflexivity.
Qed.

Lemma saved_record_fields_witness :
  exists m,
    records (handleSaveRecord (fun _ => 1700000000000%Z) Samples.salad
               (mkAppState [] (Some (utf16 "/9j/4AAQ")) Samples.empty_origin))
    = records (mkAppState [] (Some (utf16 "/9j/4AAQ")) Samples.empty_origin)
      ++ [JObj m]
    /\ member (utf16 "id") m = Some (JStr (Z_toString 1700000000000%Z))
    /\ member (utf16 "timestamp") m = Some (JNum (Int 1700000000000%Z))
    /\ member (utf16 "image") m = Some (JStr (47%N :: utf16 "9j/4AAQ"))
    /\ (forall k, k <> utf16 "id" -> k <> utf16 "timestamp" ->
          k <> utf16 "image" ->
          member k m = member k (own_properties Samples.salad)).
Proof.
  apply (saved_record_fields (fun _ => 1700000000000%Z) Samples.salad
           (mkAppState [] (Some (utf16 "/9j/4AAQ")) Samples.empty_origin)
           47%N (utf16 "9j/4AAQ")).
  reflexivity.
Defined.

End TabbedFacts.

(** ** The pages of [app.tsx]: statistics and grouping *)

Module DailyFacts.

Import Daily.

Lemma reduce_macros_app (eng : Engine) (ar : Arithmetic)
  (f : MacroNutrients -> option json) (l : list AnalysisResult)
  (r : AnalysisResult) :
  forall sum,
    reduce_macros eng ar f (l ++ [r]) sum
    = (total <- reduce_macros eng ar f l sum ;;
       match macros r with
       | Some m => Return (add ar total (f m))
       | None => Throw (TypeError (undefinedPropertyMessage eng))
       end).
Proof.
  induction l as [|x l IH]; intros sum; cbn [app reduce_macros bind].
  - destruct (macros r); reflexivity.
  - destruct (macros x); [apply IH|reflexivity].
Qed.

Lemma reduce_macros_returns (eng : Engine) (ar : Arithmetic)
  (f : MacroNutrients -> option json) (l : list AnalysisResult) :
  Forall (fun r => macros r <> None) l ->
  forall sum, exists total, reduce_macros eng ar f l sum = Return total.
Proof.
  induction 1 as [|x l Hx _ IH]; intros sum; cbn [reduce_macros].
  - eauto.
  - destruct (macros x); [apply IH|contradiction].
Qed.

(** What [getTodayStats] returns, when it returns. *)
Lemma getTodayStats_returns (eng : Engine) (ar : Arithmetic) (cal : Calendar)
  (records : list AnalysisResult) (stats : DailyStats (value ar)) :
  getTodayStats eng ar cal records = Return stats ->
  let today := of_day cal (toDateString cal (now cal)) records in
  totalCalories stats
  = fold_left (fun sum r => add ar sum (calories r)) today (zero ar)
  /\ reduce_macros eng ar protein today (zero ar)
     = Return (totalProtein stats)
  /\ reduce_macros eng ar carbs today (zero ar) = Return (totalCarbs stats)
  /\ reduce_macros eng ar fat today (zero ar) = Return (totalFat stats)
  /\ mealCount stats = length today.
Proof.
  unfold getTodayStats, of_day.
  destruct (reduce_macros eng ar protein _ (zero ar)) as [p|e];
    cbn [bind]; [|discriminate].
  destruct (reduce_macros eng ar carbs _ (zero ar)) as [c|e];
    cbn [bind]; [|discriminate].
  destruct (reduce_macros eng ar fat _ (zero ar)) as [f|e];
    cbn [bind]; [|discriminate].
  intros H. inversion H. cbn. auto.
Qed.

(** A record appended to the collection, as a save appends it, updates
    the statistics of the day by one addition for each total and by one
    meal when it is of today, and leaves them as they were when it is
    not; a record of today without [macros] makes [getTodayStats]
    throw. *)
Theorem appended_record_updates_today_stats (eng : Engine) (ar : Arithmetic)
  (cal : Calendar) (records : list AnalysisResult) (r : AnalysisResult)
  (stats : DailyStats (value ar)) :
  getTodayStats eng ar cal records = Return stats ->
  getTodayStats eng ar cal (records ++ [r])
  = if jsstring_eqb (toDateString cal (timestamp r))
                    (toDateString cal (now cal))
    then match macros r with
         | Some m =>
           Return (mkDailyStats (add ar (totalCalories stats) (calories r))
                                (add ar (totalProtein stats) (protein m))
                                (add ar (totalCarbs stats) (carbs m))
                                (add ar (totalFat stats) (fat m))
                                (S (mealCount stats)))
         | None => Throw (TypeError (undefinedPropertyMessage eng))
         end
    else Return stats.
Proof.
  intros H.
  destruct (getTodayStats_returns eng ar cal records stats H)
    as [Hc [Hp [Hb [Hf Hn]]]].
  unfold getTodayStats at 1. rewrite filter_app. cbn [filter].
  fold (of_day cal (toDateString cal (now cal)) records).
  destruct (jsstring_eqb (toDateString cal (timestamp r))
                         (toDateString cal (now cal))).
  - rewrite !reduce_macros_app, Hp, Hb, Hf. cbn [bind].
    destruct (macros r) as [m|]; cbn [bind]; [|reflexivity].
    rewrite fold_left_app, <- Hc, length_app, <- Hn. cbn [fold_left length].
    rewrite Nat.add_1_r. reflexivity.
  - rewrite app_nil_r, Hp, Hb, Hf, <- Hc, <- Hn. cbn [bind].
    destruct stats. reflexivity.
Qed.

Lemma appended_record_updates_today_stats_witness :
  getTodayStats Samples.v8 Cases.operands (Cases.utc 1700000500000)
    ([Cases.meal 1600000000000 250; Cases.meal 1700000000000 420]
     ++ [Cases.meal 1700000300000 610])
  = if jsstring_eqb
         (toDateString (Cases.utc 1700000500000)
                       (timestamp (Cases.meal 1700000300000 610)))
         (toDateString (Cases.utc 1700000500000)
                       (now (Cases.utc 1700000500000)))
    then match macros (Cases.meal 1700000300000 610) with
         | Some m =>
           Return (mkDailyStats
                     (add Cases.operands [Some (JNum (Int 420))]
                          (calories (Cases.meal 1700000300000 610)))
                     (add Cases.operands [Some (JNum (Int 38))] (protein m))
                     (add Cases.operands [Some (JNum (Int 12))] (carbs m))
                     (add Cases.operands [Some (JNum (Int 18))] (fat m))
                     2)
         | None => Throw (TypeError (undefinedPropertyMessage Samples.v8))
         end
    else Return (mkDailyStats [Some (JNum (Int 420))] [Some (JNum (Int 38))]
                              [Some (JNum (Int 12))] [Some (JNum (Int 18))]
                              1%nat).
Proof.
  apply (appended_record_updates_today_stats Samples.v8 Cases.operands
           (Cases.utc 1700000500000)
           [Cases.meal 1600000000000 250; Cases.meal 1700000000000 420]
           (Cases.meal 1700000300000 610)
           (mkDailyStats [Some (JNum (Int 420))] [Some (JNum (Int 38))]
                         [Some (JNum (Int 12))] [Some (JNum (Int 18))]
                         1%nat)).
  vm_compute. reflexivity.
Defined.

Lemma group_push_to (date d : jsstring) (r : AnalysisResult)
  (acc : list (jsstring * list AnalysisResult)) :
  group date (push_to d r acc)
  = if jsstring_eqb date d
    then Some (match group date acc with
               | Some rs => rs ++ [r]
               | None => [r]
               end)
    else group date acc.
Proof.
  induction acc as [|[d0 rs] acc IH]; cbn [push_to group].
  - destruct (jsstring_eqb date d); reflexivity.
  - destruct (jsstring_eqb d d0) eqn:E; cbn [group].
    + apply SaveEdgeFacts.jsstring_eqb_eq in E. subst d0.
      destruct (jsstring_eqb date d); reflexivity.
    + destruct (jsstring_eqb date d0) eqn:E0.
      * apply SaveEdgeFacts.jsstring_eqb_eq in E0. subst d0.
        destruct (jsstring_eqb date d) eqn:E1; [|reflexivity].
        apply SaveEdgeFacts.jsstring_eqb_eq in E1. subst d.
        rewrite StoreFacts.jsstring_eqb_refl in E. discriminate.
      * exact IH.
Qed.

Lemma group_fold (cal : Calendar) (date : jsstring)
  (records : list AnalysisResult) :
  forall acc,
    group date
      (fold_left (fun acc record =>
                    push_to (toDateString cal (timestamp record)) record acc)
                 records acc)
    = match group date acc, of_day cal date records with
      | Some rs, l => Some (rs ++ l)
      | None, [] => None
      | None, l => Some l
      end.
Proof.
  induction records as [|r records IH]; intros acc; cbn [fold_left].
  - unfold of_day. cbn [filter].
    destruct (group date acc); [rewrite app_nil_r|]; reflexivity.
  - rewrite IH, group_push_to. unfold of_day. cbn [filter].
    assert (Esym : jsstring_eqb date (toDateString cal (timestamp r))
                   = jsstring_eqb (toDateString cal (timestamp r)) date).
    { destruct (jsstring_eqb date (toDateString cal (timestamp r))) eqn:E.
      - apply SaveEdgeFacts.jsstring_eqb_eq in E. rewrite <- E.
        rewrite StoreFacts.jsstring_eqb_refl. reflexivity.
      - destruct (jsstring_eqb (toDateString cal (timestamp r)) date) eqn:E';
          [|reflexivity].
        apply SaveEdgeFacts.jsstring_eqb_eq in E'. rewrite E' in E.
        rewrite StoreFacts.jsstring_eqb_refl in E. discriminate. }
    rewrite Esym.
    destruct (jsstring_eqb (toDateString cal (timestamp r)) date).
    + destruct (group date acc) as [rs|].
      * rewrite <- app_assoc. reflexivity.
      * reflexivity.
    + reflexivity.
Qed.

(** The group [HistoryPage] shows under a date is the records of that
    day, all of them and in the order of the collection; a date without
    a record has no group. *)
Theorem groups_are_the_days (cal : Calendar) (date : jsstring)
  (records : list AnalysisResult) :
  group date (groupedRecords cal records)
  = match of_day cal date records with
    | [] => None
    | r :: rs => Some (r :: rs)
    end.
Proof.
  unfold groupedRecords. rewrite group_fold. cbn [group].
  destruct (of_day cal date records); reflexivity.
Qed.

Lemma keys_push_to (d : jsstring) (r : AnalysisResult)
  (acc : list (jsstring * list AnalysisResult)) :
  NoDup (map fst acc) ->
  NoDup (map fst (push_to d r acc))
  /\ (forall k, In k (map fst (push_to d r acc)) ->
        k = d \/ In k (map fst acc)).
Proof.
  induction acc as [|[d0 rs] acc IH]; cbn [push_to map fst].
  - intros _. split.
    + constructor; [intros []|constructor].
    + intros k [H|[]]. left. symmetry. exact H.
  - intros Hnd. inversion Hnd as [|? ? Hnotin Hnd']. subst.
    destruct (jsstring_eqb d d0) eqn:E; cbn [map fst].
    + split; [exact Hnd|]. intros k Hk. right. exact Hk.
    + destruct (IH Hnd') as [IH1 IH2]. split.
      * constructor; [|exact IH1].
        intros Hin. destruct (IH2 _ Hin) as [H|H].
        -- subst d0. rewrite StoreFacts.jsstring_eqb_refl in E. discriminate.
        -- contradiction.
      * intros k [Hk|Hk].
        -- right. left. exact Hk.
        -- destruct (IH2 _ Hk) as [H|H]; [left; exact H|right; right; exact H].
Qed.

Lemma concat_push_to (d : jsstring) (r : AnalysisResult)
  (acc : list (jsstring * list AnalysisResult)) :
  Permutation (concat (map snd (push_to d r acc)))
              (r :: concat (map snd acc)).
Proof.
  induction acc as [|[d0 rs] acc IH]; cbn [push_to map snd concat].
  - reflexivity.
  - destruct (jsstring_eqb d d0); cbn [map snd concat].
    + rewrite <- app_assoc. cbn [app].
      apply Permutation_sym. apply Permutation_middle.
    + rewrite IH. apply Permutation_sym. apply Permutation_middle.
Qed.

Lemma grouped_fold (cal : Calendar) (records : list AnalysisResult) :
  forall acc,
    NoDup (map fst acc) ->
    let out :=
      fold_left (fun acc record =>
                   push_to (toDateString cal (timestamp record)) record acc)
                records acc in
    NoDup (map fst out)
    /\ Permutation (concat (map snd out)) (concat (map snd acc) ++ records).
Proof.
  induction records as [|r records IH]; intros acc Hnd; cbn [fold_left].
  - split; [exact Hnd|]. rewrite app_nil_r. reflexivity.
  - destruct (keys_push_to (toDateString cal (timestamp r)) r acc Hnd)
      as [Hnd' _].
    destruct (IH _ Hnd') as [H1 H2]. split; [exact H1|].
    rewrite H2, concat_push_to. cbn [app]. apply Permutation_middle.
Qed.

(** Grouping by day loses no record and repeats none: the dates of the
    groups are distinct, the groups put end to end are the collection in
    another order, and there is no group exactly when there is no
    record, which is when the page shows that there is no history. *)
Theorem grouping_keeps_every_record (cal : Calendar)
  (records : list AnalysisResult) :
  NoDup (map fst (groupedRecords cal records))
  /\ Permutation (concat (map snd (groupedRecords cal records))) records
  /\ (groupedRecords cal records = [] <-> records = []).
Proof.
  destruct (grouped_fold cal records [] (NoDup_nil _)) as [H1 H2].
  cbn [map concat app] in H2. fold (groupedRecords cal records) in H1, H2.
  split; [exact H1|]. split; [exact H2|]. split.
  - intros E. rewrite E in H2. cbn [map concat] in H2.
    apply Permutation_nil in H2. exact H2.
  - intros ->. reflexivity.
Qed.

(** The two pages agree: when [getTodayStats] returns, the number of
    meals [HomePage] shows for today is the number of records
    [HistoryPage] groups under today's date, and zero when it has no such
    group; and it returns whenever every record of today has its
    [macros]. *)
Theorem today_count_is_todays_group (eng : Engine) (ar : Arithmetic)
  (cal : Calendar) (records : list AnalysisResult) :
  (Forall (fun r => macros r <> None)
          (of_day cal (toDateString cal (now cal)) records) ->
   exists stats, getTodayStats eng ar cal records = Return stats)
  /\ (forall stats,
        getTodayStats eng ar cal records = Return stats ->
        mealCount stats
        = match group (toDateString cal (now cal))
                      (groupedRecords cal records) with
          | Some rs => length rs
          | None => 0%nat
          end).
Proof.
  split.
  - intros Hall. unfold getTodayStats.
    fold (of_day cal (toDateString cal (now cal)) records).
    destruct (reduce_macros_returns eng ar protein _ Hall (zero ar)) as [p Ep].
    destruct (reduce_macros_returns eng ar carbs _ Hall (zero ar)) as [c Ec].
    destruct (reduce_macros_returns eng ar fat _ Hall (zero ar)) as [f Ef].
    rewrite Ep, Ec, Ef. cbn [bind]. eauto.
  - intros stats H.
    destruct (getTodayStats_returns eng ar cal records stats H)
      as [_ [_ [_ [_ Hn]]]].
    rewrite Hn. unfold groupedRecords. rewrite group_fold. cbn [group].
    destruct (of_day cal (toDateString cal (now cal)) records); reflexivity.
Qed.

End DailyFacts.

(** ** The screen of the second program *)

Module ScreenFacts.

Import Retrying History HistoryModel Screen.

(** The wrapper around [analyzeImage] makes one attempt: the outcome of
    the run is the outcome of the first call. *)
Lemma linked_run_once (eng : Engine) (svc : Service) (base64Image : jsstring) :
  analyzeImageWithRetry_linked eng svc base64Image 3
  = (analyzeImage eng svc 1%Z base64Image, [Attempt 1%Z]).
Proof.
  unfold analyzeImageWithRetry_linked, analyzeImageWithRetry.
  change (Z.to_nat 3) with 3%nat.
  destruct (analyzeImage eng svc 1%Z base64Image) as [r|e] eqn:E.
  - apply RetryFacts.loop_success. exact E.
  - apply RetryFacts.loop_fatal; [exact E|].
    apply ClientFacts.fresh_not_transient.
    eapply ClientFacts.analyzeImage_throws_fresh. exact E.
Qed.

(** [handleAnalyze] without an image does nothing.  With an image it
    makes one attempt, that is one call of [analyzeImage], and never
    waits; when it has finished the spinner is off, the image, the camera
    and the history panel are as they were, and the error is either
    cleared or the fixed sentence followed by the message of what was
    caught. *)
Theorem handleAnalyze_settles (b : Browser) (svc : Service) (st : App)
  (ls : LocalStorage) :
  let out := handleAnalyze b svc st ls in
  (falsy (image st) = true -> out = (st, ls, []))
  /\ (falsy (image st) = false ->
      snd out = [Attempt 1%Z]
      /\ loading (fst (fst out)) = false
      /\ image (fst (fst out)) = image st
      /\ cameraOpen (fst (fst out)) = cameraOpen st
      /\ showHistory (fst (fst out)) = showHistory st
      /\ (error (fst (fst out)) = None
          \/ exists msg,
               error (fst (fst out))
               = Some (utf16 "Failed to analyze image. Please try again. "
                       ++ msg))).
Proof.
  intros out. subst out. unfold handleAnalyze.
  destruct (image st) as [[|c d]|] eqn:Ei; cbn [falsy].
  - split; [reflexivity|discriminate].
  - split; [discriminate|]. intros _.
    destruct (CodecFacts.compressImage_returns b (c :: d) 800 (8 # 10))
      as [api E].
    rewrite E, linked_run_once. cbn [fst snd].
    destruct (analyzeImage (engine b) svc 1%Z api) as [data|err].
    + destruct (fst (saveMealRecord b (c :: d) data snack ls)) as [u|err].
      * destruct (getMealHistory (engine b)
                    (snd (saveMealRecord b (c :: d) data snack ls)))
          as [h|err]; cbn; rewrite ?Ei; intuition eauto.
      * cbn. rewrite ?Ei. intuition eauto.
    + cbn. rewrite ?Ei. intuition eauto.
  - split; [reflexivity|discriminate].
Qed.

(** When the analysis fails nothing is stored and nothing of the screen
    changes but the error: the result and the history shown are those of
    before, and the error is the fixed sentence followed by the message
    of the client. *)
Theorem failed_analysis_changes_the_error_only (b : Browser) (svc : Service)
  (st : App) (ls : LocalStorage) (c : N) (d apiImage : jsstring)
  (e : JSError) :
  image st = Some (c :: d) ->
  compressImage b (c :: d) 800 (8 # 10) = Return apiImage ->
  analyzeImage (engine b) svc 1%Z apiImage = Throw e ->
  handleAnalyze b svc st ls
  = (mkApp (image st) (result st) false (cameraOpen st)
           (Some (utf16 "Failed to analyze image. Please try again. "
                  ++ or_else (message e) []))
           (showHistory st) (history st),
     ls, [Attempt 1%Z]).
Proof.
  intros Hi Hc Ha. unfold handleAnalyze.
  rewrite Hi, Hc, linked_run_once. cbn [fst snd]. rewrite Ha.
  unfold failed, setLoading, setError.
  cbn [image result loading cameraOpen error showHistory history].
  rewrite Hi. reflexivity.
Qed.

Lemma failed_analysis_changes_the_error_only_witness :
  handleAnalyze (Samples.thumbnailer (fun _ => 1700000000000%Z))
                Samples.throttled Cases.chosen Samples.empty_origin
  = (mkApp (image Cases.chosen) (result Cases.chosen) false
           (cameraOpen Cases.chosen)
           (Some (utf16 "Failed to analyze image. Please try again. "
                  ++ or_else
                       (message (Error (utf16
                          "API 配额已用完。请稍后再试或检查您的 Gemini API 配额。")))
                       []))
           (showHistory Cases.chosen) (history Cases.chosen),
     Samples.empty_origin, [Attempt 1%Z]).
Proof.
  apply (failed_analysis_changes_the_error_only
           (Samples.thumbnailer (fun _ => 1700000000000%Z))
           Samples.throttled Cases.chosen Samples.empty_origin
           47%N (utf16 "9j/4AAQSkZJRgABAQAAAQABAAD")
           (utf16 "/9j/2wBDAAYEBQYFBAYGBQYHBwYIChAKCgkJChQODwwQFxQYGBcU")).
  - vm_compute. reflexivity.
  - vm_compute. reflexivity.
  - vm_compute. reflexivity.
Defined.

(** When the analysis succeeds and the store accepts the record, the
    screen shows the analysis and the history with the new record first,
    which is what the storage holds; the error is cleared.  The record
    is built from the image as it was chosen, not from the one sent to
    the service. *)
Theorem successful_analysis_is_saved_and_shown (b : Browser) (svc : Service)
  (st : App) (ls : LocalStorage) (c : N) (d apiImage : jsstring)
  (data : json) (cur : list json) :
  image st = Some (c :: d) ->
  compressImage b (c :: d) 800 (8 # 10) = Return apiImage ->
  analyzeImage (engine b) svc 1%Z apiImage = Return data ->
  holds ls cur -> forallb plain cur = true -> plain data = true ->
  (base ls
   + serialized_size (next_history (new_record b (c :: d) data snack) cur)
   <= quota ls)%Z ->
  handleAnalyze b svc st ls
  = (mkApp (image st) (Some data) false (cameraOpen st) None
           (showHistory st)
           (JArr (next_history (new_record b (c :: d) data snack) cur)),
     stored ls (next_history (new_record b (c :: d) data snack) cur),
     [Attempt 1%Z]).
Proof.
  intros Hi Hc Ha Hh Hp Hd Hq. unfold handleAnalyze.
  rewrite Hi, Hc, linked_run_once. cbn [fst snd]. rewrite Ha.
  rewrite (StoreFacts.save_follows_model b (c :: d) data snack ls cur Hh Hp Hq).
  cbn [fst snd].
  rewrite (StoreFacts.getMealHistory_holds (engine b) _ _
             (StoreFacts.holds_stored ls _)).
  - unfold setLoading, setHistory, setResult, setError.
    cbn [image result loading cameraOpen error showHistory history].
    rewrite Hi. reflexivity.
  - apply StoreFacts.plain_next_history; [|exact Hp].
    rewrite StoreFacts.plain_new_record. exact Hd.
Qed.

Lemma successful_analysis_is_saved_and_shown_witness :
  let b := Samples.thumbnailer (fun _ => 1700000000000%Z) in
  let img := 47%N :: utf16 "9j/4AAQSkZJRgABAQAAAQABAAD" in
  handleAnalyze b (Samples.answering (Some (JSON_stringify Samples.salad)))
                Cases.chosen Samples.empty_origin
  = (mkApp (image Cases.chosen) (Some Samples.salad) false
           (cameraOpen Cases.chosen) None (showHistory Cases.chosen)
           (JArr (next_history (new_record b img Samples.salad snack) [])),
     stored Samples.empty_origin
            (next_history (new_record b img Samples.salad snack) []),
     [Attempt 1%Z]).
Proof.
  apply (successful_analysis_is_saved_and_shown
           (Samples.thumbnailer (fun _ => 1700000000000%Z))
           (Samples.answering (Some (JSON_stringify Samples.salad)))
           Cases.chosen Samples.empty_origin
           47%N (utf16 "9j/4AAQSkZJRgABAQAAAQABAAD")
           (utf16 "/9j/2wBDAAYEBQYFBAYGBQYHBwYIChAKCgkJChQODwwQFxQYGBcU")
           Samples.salad []).
  - vm_compute. reflexivity.
  - vm_compute. reflexivity.
  - vm_compute. reflexivity.
  - right. split; reflexivity.
  - reflexivity.
  - reflexivity.
  - vm_compute. discriminate.
Defined.

(** When the analysis succeeds and the store rejects the save, the
    screen shows the analysis and the failure sentence together; the
    history shown and the storage are those of before. *)
Theorem rejected_save_shows_result_and_error (b : Browser) (svc : Service)
  (st : App) (ls : LocalStorage) (c : N) (d apiImage : jsstring)
  (data : json) (e : JSError) :
  image st = Some (c :: d) ->
  compressImage b (c :: d) 800 (8 # 10) = Return apiImage ->
  analyzeImage (engine b) svc 1%Z apiImage = Return data ->
  fst (saveMealRecord b (c :: d) data snack ls) = Throw e ->
  handleAnalyze b svc st ls
  = (mkApp (image st) (Some data) false (cameraOpen st)
           (Some (utf16 "Failed to analyze image. Please try again. "
                  ++ or_else (message QuotaExceededError) []))
           (showHistory st) (history st),
     ls, [Attempt 1%Z]).
Proof.
  intros Hi Hc Ha Hs. unfold handleAnalyze.
  rewrite Hi, Hc, linked_run_once. cbn [fst snd]. rewrite Ha.
  destruct (SaveEdgeFacts.saveMealRecord_outcomes b (c :: d) data snack ls)
    as [E|[[v E]|E]]; rewrite E in Hs |- *; cbn [fst snd] in Hs |- *;
    try discriminate Hs.
  unfold failed, setLoading, setResult, setError.
  cbn [image result loading cameraOpen error showHistory history].
  rewrite Hi. reflexivity.
Qed.

Lemma rejected_save_shows_result_and_error_witness :
  handleAnalyze (Samples.thumbnailer (fun _ => 1700000000000%Z))
                (Samples.answering (Some (JSON_stringify Samples.salad)))
                Cases.chosen Cases.crowded
  = (mkApp (image Cases.chosen) (Some Samples.salad) false
           (cameraOpen Cases.chosen)
           (Some (utf16 "Failed to analyze image. Please try again. "
                  ++ or_else (message QuotaExceededError) []))
           (showHistory Cases.chosen) (history Cases.chosen),
     Cases.crowded, [Attempt 1%Z]).
Proof.
  apply (rejected_save_shows_result_and_error
           (Samples.thumbnailer (fun _ => 1700000000000%Z))
           (Samples.answering (Some (JSON_stringify Samples.salad)))
           Cases.chosen Cases.crowded
           47%N (utf16 "9j/4AAQSkZJRgABAQAAAQABAAD")
           (utf16 "/9j/2wBDAAYEBQYFBAYGBQYHBwYIChAKCgkJChQODwwQFxQYGBcU")
           Samples.salad QuotaExceededError).
  - vm_compute. reflexivity.
  - vm_compute. reflexivity.
  - vm_compute. reflexivity.
  - vm_compute. reflexivity.
Defined.

End ScreenFacts.

(** ** Sessions *)

Module SessionFacts.

Import Retrying Screen.

(** In [app.tsx] nothing caps the collection: a session of captures and
    saves keeps the records it started with, oldest first, and adds one
    record for each save, whatever the medium does. *)
Theorem tabbed_history_is_uncapped (steps : list Session.Step) :
  forall st : Tabbed.AppState,
    Forall (fun s => Session.step_image s <> []) steps ->
    exists added,
      Tabbed.records (Session.session steps st) = Tabbed.records st ++ added
      /\ length added = length steps.
Proof.
  induction steps as [|s steps IH]; intros st Hall.
  - exists []. rewrite app_nil_r. split; reflexivity.
  - inversion Hall as [|? ? Hs Hrest]. subst.
    unfold Session.session. cbn [fold_left].
    fold (Session.session steps (Session.capture_and_save st s)).
    destruct (IH (Session.capture_and_save st s) Hrest) as [added [E L]].
    destruct (Session.step_image s) as [|c d] eqn:Ei; [contradiction|].
    destruct (StoreFacts.handleSaveRecord_appends
                (Session.step_now s) (Session.step_result s)
                (Session.setAnalysisImage (Some (c :: d)) st) c d eq_refl)
      as [r [Er _]].
    unfold Session.capture_and_save in E. rewrite Ei in E.
    exists (r :: added). split.
    + unfold Session.capture_and_save. rewrite Ei.
      etransitivity; [exact E|].
      etransitivity; [exact (f_equal (fun l => l ++ added) Er)|].
      cbn [Session.setAnalysisImage Tabbed.records].
      rewrite <- app_assoc. reflexivity.
    + cbn [length]. rewrite L. reflexivity.
Qed.

Lemma tabbed_history_is_uncapped_witness :
  let steps := [Session.mkStep (utf16 "/9j/4AAQ") (fun _ => 1700000000000%Z)
                               Samples.salad;
                Session.mkStep (utf16 "/9j/4AAR") (fun _ => 1700000000001%Z)
                               Samples.incomplete] in
  let st := Tabbed.mkAppState [] None Cases.crowded in
  exists added,
    Tabbed.records (Session.session steps st) = Tabbed.records st ++ added
    /\ length added = length steps.
Proof.
  apply (tabbed_history_is_uncapped
           [Session.mkStep (utf16 "/9j/4AAQ") (fun _ => 1700000000000%Z)
                           Samples.salad;
            Session.mkStep (utf16 "/9j/4AAR") (fun _ => 1700000000001%Z)
                           Samples.incomplete]
           (Tabbed.mkAppState [] None Cases.crowded)).
  repeat constructor; cbn [Session.step_image]; vm_compute; discriminate.
Defined.

(** After [reset] the handler has nothing to analyse and sends nothing.
    After a new capture the result of the previous image is gone: when
    the analysis of the new image fails, the screen shows the new image
    and the error, and no result. *)
Theorem new_capture_drops_the_stale_result (b : Browser) (svc : Service)
  (st : App) (ls : LocalStorage) (c : N) (d apiImage : jsstring)
  (e : JSError) :
  compressImage b (c :: d) 800 (8 # 10) = Return apiImage ->
  analyzeImage (engine b) svc 1%Z apiImage = Throw e ->
  handleAnalyze b svc (reset st) ls = (reset st, ls, [])
  /\ handleAnalyze b svc (handleCameraCapture (c :: d) st) ls
     = (mkApp (Some (c :: d)) None false false
              (Some (utf16 "Failed to analyze image. Please try again. "
                     ++ or_else (message e) []))
              (showHistory st) (history st),
        ls, [Attempt 1%Z]).
Proof.
  intros Hc Ha. split; [reflexivity|].
  unfold handleAnalyze, handleCameraCapture, setError, setResult,
    setCameraOpen, setImage.
  cbn [image result loading cameraOpen error showHistory history].
  rewrite Hc, ScreenFacts.linked_run_once. cbn [fst snd]. rewrite Ha.
  reflexivity.
Qed.

Lemma new_capture_drops_the_stale_result_witness :
  let b := Samples.thumbnailer (fun _ => 1700000000000%Z) in
  let e := Error (utf16 "API 配额已用完。请稍后再试或检查您的 Gemini API 配额。") in
  handleAnalyze b Samples.throttled (reset Cases.chosen) Samples.empty_origin
  = (reset Cases.chosen, Samples.empty_origin, [])
  /\ handleAnalyze b Samples.throttled
       (handleCameraCapture (47%N :: utf16 "9j/4AAQ") Cases.chosen)
       Samples.empty_origin
     = (mkApp (Some (47%N :: utf16 "9j/4AAQ")) None false false
              (Some (utf16 "Failed to analyze image. Please try again. "
                     ++ or_else (message e) []))
              (showHistory Cases.chosen) (history Cases.chosen),
        Samples.empty_origin, [Attempt 1%Z]).
Proof.
  apply (new_capture_drops_the_stale_result
           (Samples.thumbnailer (fun _ => 1700000000000%Z)) Samples.throttled
           Cases.chosen Samples.empty_origin 47%N (utf16 "9j/4AAQ")
           (utf16 "/9j/2wBDAAYEBQYFBAYGBQYHBwYIChAKCgkJChQODwwQFxQYGBcU")
           (Error (utf16
              "API 配额已用完。请稍后再试或检查您的 Gemini API 配额。"))).
  - vm_compute. reflexivity.
  - vm_compute. reflexivity.
Defined.

End SessionFacts.
